(** * Terrain sculpting: the height-field model of [Terrain.tsx]

    The component keeps a [THREE.PlaneGeometry] position buffer, fills its
    heights from a 2D noise function when it is mounted ([geometry]) and
    deforms them under a cosine brush on pointer events ([modifyTerrain]).

    The arithmetic of the source is the arithmetic of JavaScript numbers.
    The model is written once over an interface of number operations
    ([JSNumber]) and read at two instances: [Exact], the real numbers
    (rounding abstracted away), and [Binary64], IEEE 754 double precision
    with its NaN and infinities, where a height written to the position
    buffer, a [Float32Array], is rounded to single precision. *)

From Stdlib Require Import ZArith Reals Lra Lia.
From Stdlib Require Import SpecFloat.
From stdpp Require Import base list.

(** ** Numbers *)

(** The operations on numbers that the component uses. *)
Class JSNumber (num : Type) := {
  of_Z : Z -> num;                 (* integer literals: 1, -1, 2, 5, 40, 100 *)
  add : num -> num -> num;
  sub : num -> num -> num;
  mul : num -> num -> num;
  div : num -> num -> num;
  ltb : num -> num -> bool;        (* the comparison [a < b] *)
  Math_sqrt : num -> num;
  Math_cos : num -> num;
  Math_PI : num;
  Math_fround : num -> num         (* what a [Float32Array] keeps of a number *)
}.

(** ** Data *)

(** [types.ts] *)
Inductive BrushDirection := up | down.

Record BrushSettings (num : Type) := mkBrush {
  size : num;
  strength : num;
  direction : BrushDirection
}.
Arguments mkBrush {num}.
Arguments size {num}.
Arguments strength {num}.
Arguments direction {num}.

Module Vector3.
Record t (num : Type) := make { x : num; y : num; z : num }.
Arguments make {num}.
Arguments x {num}.
Arguments y {num}.
Arguments z {num}.
End Vector3.

(** The position attribute of the geometry: one [(x, y, z)] triple per
    vertex, [positions.count] being the length. *)
Abbreviation BufferAttribute num := (list (Vector3.t num)).

(** [geom.attributes.position] may be missing; [normal] is what
    [computeVertexNormals] last wrote. *)
Record BufferGeometry (num : Type) := mkGeometry {
  position : option (BufferAttribute num);
  normal : list (Vector3.t num)
}.
Arguments mkGeometry {num}.
Arguments position {num}.
Arguments normal {num}.

(** The part of a pointer event that [modifyTerrain] reads. *)
Record ThreeEvent (num : Type) := mkEvent {
  point : option (Vector3.t num)
}.
Arguments mkEvent {num}.
Arguments point {num}.

Section Terrain.
Context {num : Type} {JS : JSNumber num}.

(** [three.js]'s normal estimation, a function of the positions (the grid
    triangulation is fixed); its code is not part of the component. *)
Variable computeVertexNormals : BufferAttribute num -> list (Vector3.t num).

Definition TERRAIN_SIZE : num := of_Z 100.
Definition TERRAIN_SEGMENTS : nat := 128.

(** *** Buffer access *)

Definition getY (positions : BufferAttribute num) (i : nat) : option num :=
  Vector3.y <$> positions !! i.

(** The buffer is a [Float32Array]: a write keeps the single-precision
    rounding of the value.  A write past the end of the buffer is dropped. *)
Definition setY (positions : BufferAttribute num) (i : nat) (v : num)
  : BufferAttribute num :=
  match positions !! i with
  | Some vertex =>
      <[i := Vector3.make (Vector3.x vertex) (Math_fround v) (Vector3.z vertex)]>
        positions
  | None => positions
  end.

(** *** The brush: [modifyTerrain], lines 37-67 *)

Definition brushSizeSq (brush : BrushSettings num) : num :=
  mul (size brush) (size brush).

Definition distSq (intersectionPoint vertex : Vector3.t num) : num :=
  let dx := sub (Vector3.x vertex) (Vector3.x intersectionPoint) in
  let dz := sub (Vector3.z vertex) (Vector3.z intersectionPoint) in
  add (mul dx dx) (mul dz dz).

Definition falloff (brush : BrushSettings num) (distSq : num) : num :=
  div (add (Math_cos (mul (div (Math_sqrt distSq) (size brush)) Math_PI))
           (of_Z 1))
      (of_Z 2).

Definition displacement (brush : BrushSettings num) (distSq : num) : num :=
  mul (mul (strength brush) (falloff brush distSq))
      (match direction brush with up => of_Z 1 | down => of_Z (-1) end).

(** The body of the loop at index [i]: [vertex.fromBufferAttribute], the
    footprint test and, inside the footprint, [getY] and [setY]. *)
Definition modifyTerrain_body (brush : BrushSettings num)
    (intersectionPoint : Vector3.t num)
    (positions : BufferAttribute num) (i : nat) : BufferAttribute num :=
  match positions !! i with
  | None => positions
  | Some vertex =>
      if ltb (distSq intersectionPoint vertex) (brushSizeSq brush) then
        match getY positions i with
        | None => positions
        | Some currentY =>
            setY positions i
              (add currentY (displacement brush (distSq intersectionPoint vertex)))
        end
      else positions
  end.

(** [for (let i = 0; i < positions.count; i++) ...] *)
Definition modifyTerrain_loop (brush : BrushSettings num)
    (intersectionPoint : Vector3.t num)
    (positions : BufferAttribute num) : BufferAttribute num :=
  foldl (modifyTerrain_body brush intersectionPoint) positions
        (seq 0 (length positions)).

(** The callback, on the geometry behind [meshRef.current].  Of the event
    only [point] matters to the geometry ([stopPropagation] and the
    [needsUpdate] flag concern the renderer). *)
Definition modifyTerrain (brush : BrushSettings num)
    (meshRef_current : option (BufferGeometry num))
    (event : ThreeEvent num) : option (BufferGeometry num) :=
  match meshRef_current, point event with
  | Some geom, Some intersectionPoint =>
      match position geom with
      | None => meshRef_current
      | Some positions =>
          let positions' := modifyTerrain_loop brush intersectionPoint positions in
          Some (mkGeometry (Some positions') (computeVertexNormals positions'))
      end
  | _, _ => meshRef_current
  end.

(** Successive pointer events, each with the brush settings of its time. *)
Definition strokes (meshRef_current : option (BufferGeometry num))
    (calls : list (BrushSettings num * ThreeEvent num))
  : option (BufferGeometry num) :=
  foldl (fun mesh call => modifyTerrain call.1 mesh call.2) meshRef_current calls.

(** *** Generation: the [geometry] memo, lines 20-35 *)

(** Modelled from the spec: [THREE.PlaneGeometry] turned into the
    horizontal plane by [rotateX(-Math.PI / 2)]; the spec's grid is a
    regular lattice of [(segments+1) x (segments+1)] vertices spanning
    [size x size], centred at the origin, flat index
    [row * (segments+1) + col].  [gridVertex] is the vertex in column [ix]
    of row [iy]: [x = ix * segment_width - width_half], [z] likewise. *)
Definition gridVertex (width height : num)
    (widthSegments heightSegments ix iy : nat) : Vector3.t num :=
  let width_half := div width (of_Z 2) in
  let height_half := div height (of_Z 2) in
  let segment_width := div width (of_Z (Z.of_nat widthSegments)) in
  let segment_height := div height (of_Z (Z.of_nat heightSegments)) in
  Vector3.make (sub (mul (of_Z (Z.of_nat ix)) segment_width) width_half)
               (of_Z 0)
               (sub (mul (of_Z (Z.of_nat iy)) segment_height) height_half).

(** Modelled from the spec: the position buffer of that grid, row after
    row, flat (height [0]) as [PlaneGeometry] leaves it. *)
Definition PlaneGeometry (width height : num)
    (widthSegments heightSegments : nat) : BufferAttribute num :=
  iy ← seq 0 (S heightSegments);
  (fun ix => gridVertex width height widthSegments heightSegments ix iy)
    <$> seq 0 (S widthSegments).

Definition geometry_body (noise2D : num -> num -> num)
    (positions : BufferAttribute num) (i : nat) : BufferAttribute num :=
  match positions !! i with
  | None => positions
  | Some vertex =>
      let noiseVal := noise2D (div (Vector3.x vertex) (of_Z 40))
                              (div (Vector3.z vertex) (of_Z 40)) in
      setY positions i (mul noiseVal (of_Z 5))
  end.

Definition generate (size : num) (segments : nat)
    (noise2D : num -> num -> num) : BufferGeometry num :=
  let geom := PlaneGeometry size size segments segments in
  let positions := foldl (geometry_body noise2D) geom (seq 0 (length geom)) in
  mkGeometry (Some positions) (computeVertexNormals positions).

Definition geometry (noise2D : num -> num -> num) : BufferGeometry num :=
  generate TERRAIN_SIZE TERRAIN_SEGMENTS noise2D.

(** [createNoise2D()], line 18.  The constructor belongs to the
    [simplex-noise] package; called without an argument it draws from
    [Math.random].  A random source is the sequence of its draws. *)
Definition noise2D (createNoise2D : (nat -> num) -> num -> num -> num)
    (Math_random : nat -> num) : num -> num -> num :=
  createNoise2D Math_random.

(** The height the generation loop gives one vertex. *)
Definition generateVertex (noise2D : num -> num -> num)
    (vertex : Vector3.t num) : Vector3.t num :=
  Vector3.make (Vector3.x vertex)
    (Math_fround (mul (noise2D (div (Vector3.x vertex) (of_Z 40))
                               (div (Vector3.z vertex) (of_Z 40))) (of_Z 5)))
    (Vector3.z vertex).

(** *** Views used to state properties *)

(** The position buffer behind a mesh reference, empty when there is none. *)
Definition positions_of (meshRef_current : option (BufferGeometry num))
  : BufferAttribute num :=
  default [] (meshRef_current ≫= position).

(** The horizontal layout of a buffer: the [(x, z)] of every vertex. *)
Definition planar (positions : BufferAttribute num) : list (num * num) :=
  (fun v => (Vector3.x v, Vector3.z v)) <$> positions.

(** The height field of a buffer. *)
Definition heights (positions : BufferAttribute num) : list num :=
  Vector3.y <$> positions.

(** What one pass of the loop does to a single vertex. *)
Definition modifyVertex (brush : BrushSettings num)
    (intersectionPoint vertex : Vector3.t num) : Vector3.t num :=
  if ltb (distSq intersectionPoint vertex) (brushSizeSq brush) then
    Vector3.make (Vector3.x vertex)
      (Math_fround
         (add (Vector3.y vertex) (displacement brush (distSq intersectionPoint vertex))))
      (Vector3.z vertex)
  else vertex.

End Terrain.

(** ** The two readings of numbers *)

(** Exact arithmetic: numbers are reals, and a buffer keeps the number
    written to it. *)
#[export] Instance Exact : JSNumber R := {|
  of_Z := IZR;
  add := Rplus;
  sub := Rminus;
  mul := Rmult;
  div := Rdiv;
  ltb := fun a b => if Rlt_dec a b then true else false;
  Math_sqrt := sqrt;
  Math_cos := cos;
  Math_PI := PI;
  Math_fround := fun a => a
|}.

(** IEEE 754 binary64, round to nearest even, as [SpecFloat] defines it,
    with single-precision buffers.  [Math.cos] is left to the engine by the
    language; it is a parameter. *)
Definition prec64 : Z := 53.
Definition emax64 : Z := 1024.

(** Single precision, the element type of a [Float32Array]. *)
Definition prec32 : Z := 24.
Definition emax32 : Z := 128.

(** The double a [Float32Array] element reads back as after a write of [a]:
    [a] rounded to the nearest single (ties to even, overflow to an
    infinity), written again in the canonical form of a double. *)
Definition fround64 (a : spec_float) : spec_float :=
  match a with
  | S754_finite s m e =>
      match binary_round prec32 emax32 s m e with
      | S754_finite s' m' e' => binary_round prec64 emax64 s' m' e'
      | single => single
      end
  | _ => a
  end.

Definition Binary64 (cos64 : spec_float -> spec_float) : JSNumber spec_float := {|
  of_Z := fun n => binary_normalize prec64 emax64 n 0 false;
  add := SFadd prec64 emax64;
  sub := SFsub prec64 emax64;
  mul := SFmul prec64 emax64;
  div := SFdiv prec64 emax64;
  ltb := SFltb;
  Math_sqrt := SFsqrt prec64 emax64;
  Math_cos := cos64;
  Math_PI := S754_finite false 7074237752028440 (-51);
  Math_fround := fround64
|}.

(** A number is finite when it is neither NaN nor an infinity. *)
Definition isFinite (a : spec_float) : bool :=
  match a with
  | S754_nan | S754_infinity _ => false
  | _ => true
  end.

(** ** Exact arithmetic: notions used to state the brush properties *)

(** Planar distance of a vertex from the brush centre. *)
Definition dist (p v : Vector3.t R) : R := sqrt (distSq p v).

(** Height change of a vertex under one brush application. *)
Definition delta (brush : BrushSettings R) (p v : Vector3.t R) : R :=
  (Vector3.y (modifyVertex brush p v) - Vector3.y v)%R.

(** The scenario of the spec: brush [{size: 5, strength: 0.5, direction: up}]
    at the origin of the flat reference grid. *)
Definition scenarioBrush : BrushSettings R := mkBrush 5%R (1 / 2)%R up.
Definition origin : Vector3.t R := Vector3.make 0%R 0%R 0%R.
Definition flatGrid : BufferAttribute R :=
  PlaneGeometry TERRAIN_SIZE TERRAIN_SIZE TERRAIN_SEGMENTS TERRAIN_SEGMENTS.
(** A coarser flat grid over the same extent, 41x41 with spacing [2.5]: it
    has vertices at [(5, 0)] and [(2.5, 0)]. *)
Definition coarseGrid : BufferAttribute R := PlaneGeometry 100%R 100%R 40 40.

(** ** Binary64: notions and inputs used to state the brush properties *)

(** [+Infinity] or [NaN]: what a squared distance from a non-finite point is. *)
Definition posInfOrNaN (a : spec_float) : bool :=
  match a with
  | S754_nan | S754_infinity false => true
  | _ => false
  end.

(** The decimal literal [n/d], correctly rounded. *)
Definition decimal64 (n d : Z) : spec_float :=
  SFdiv prec64 emax64 (binary_normalize prec64 emax64 n 0 false)
                      (binary_normalize prec64 emax64 d 0 false).

(** The drift scenario: a terrain whose noise value is [0.1] at every
    sample, so of height [0.5] everywhere, under a brush of size [5] and
    strength [0.9] centred on the vertex at the origin (row 64, column 64). *)
Definition driftNoise : spec_float -> spec_float -> spec_float :=
  fun _ _ => decimal64 1 10.
Definition driftBrush (d : BrushDirection) : BrushSettings spec_float :=
  mkBrush (binary_normalize prec64 emax64 5 0 false) (decimal64 9 10) d.
Definition driftPoint : Vector3.t spec_float :=
  Vector3.make (S754_zero false) (S754_zero false) (S754_zero false).
(** What the buffer holds at the centre after the raise,
    [1.399999976158142] (the single nearest to [1.4]); the gain
    [0.899999976158142] over [0.5]; and what the buffer holds after the
    lower, [0.4999999701976776]. *)
Definition driftRaised : spec_float := S754_finite false 6305039370944512 (-52).
Definition driftLowered : spec_float := S754_finite false 9007198717870080 (-54).

(** A brush of positive size [2^-600], whose square is below the smallest
    positive double, and of strength [0.5]. *)
Definition tinyBrush : BrushSettings spec_float :=
  mkBrush (S754_finite false 4503599627370496 (-652)) (decimal64 1 2) up.

(** A brush of size [0.5], less than the grid spacing [0.78125], and of
    strength [1e39], more than the largest single. *)
Definition hugeBrush : BrushSettings spec_float :=
  mkBrush (decimal64 1 2) (binary_normalize prec64 emax64 (10 ^ 39) 0 false) up.

(** ** The callers: pointer handlers and camera controls *)

(** What the handlers read of the orbit controls behind [controlsRef]: the
    [enabled] flag, the camera position ([controls.object.position]), the
    orbit target and the distance limits. *)
Record OrbitControls (num : Type) := mkControls {
  enabled : bool;
  object_position : Vector3.t num;
  target : Vector3.t num;
  minDistance : num;
  maxDistance : num
}.
Arguments mkControls {num}.
Arguments enabled {num}.
Arguments object_position {num}.
Arguments target {num}.
Arguments minDistance {num}.
Arguments maxDistance {num}.

(** [controls.enabled = b] *)
Definition setEnabled {num : Type} (b : bool) (controls : OrbitControls num)
  : OrbitControls num :=
  mkControls b (object_position controls) (target controls)
             (minDistance controls) (maxDistance controls).

(** [camera.position.copy(newPosition)] *)
Definition setPosition {num : Type} (newPosition : Vector3.t num)
    (controls : OrbitControls num) : OrbitControls num :=
  mkControls (enabled controls) newPosition (target controls)
             (minDistance controls) (maxDistance controls).

(** A pointer event: the part [modifyTerrain] reads, and [event.buttons]. *)
Record PointerEvent (num : Type) := mkPointer {
  threeEvent : ThreeEvent num;
  buttons : Z
}.
Arguments mkPointer {num}.
Arguments threeEvent {num}.
Arguments buttons {num}.

(** The two refs that [App] and [Terrain] share. *)
Record Refs (num : Type) := mkRefs {
  meshRef : option (BufferGeometry num);
  controlsRef : option (OrbitControls num)
}.
Arguments mkRefs {num}.
Arguments meshRef {num}.
Arguments controlsRef {num}.

Section Handlers.
Context {num : Type} {JS : JSNumber num}.
Variable computeVertexNormals : BufferAttribute num -> list (Vector3.t num).

(** [handlePointerDown], lines 69-74 *)
Definition handlePointerDown (brush : BrushSettings num) (refs : Refs num)
    (event : PointerEvent num) : Refs num :=
  let controlsRef' :=
    match controlsRef refs with
    | Some controls => Some (setEnabled false controls)
    | None => None
    end in
  mkRefs (modifyTerrain computeVertexNormals brush (meshRef refs) (threeEvent event))
         controlsRef'.

(** [handlePointerMove], lines 76-80 *)
Definition handlePointerMove (brush : BrushSettings num) (refs : Refs num)
    (event : PointerEvent num) : Refs num :=
  if (buttons event =? 1)%Z then
    mkRefs (modifyTerrain computeVertexNormals brush (meshRef refs) (threeEvent event))
           (controlsRef refs)
  else refs.

(** [handlePointerUp], [App.tsx] lines 40-44 *)
Definition handlePointerUp (refs : Refs num) : Refs num :=
  match controlsRef refs with
  | Some controls =>
      if negb (enabled controls) then
        mkRefs (meshRef refs) (Some (setEnabled true controls))
      else refs
  | None => refs
  end.

(** A press on the terrain, the moves that follow, and the release; every
    event comes with the brush settings of its time. *)
Definition drag (refs : Refs num)
    (down : BrushSettings num * PointerEvent num)
    (moves : list (BrushSettings num * PointerEvent num)) : Refs num :=
  handlePointerUp
    (foldl (fun r move => handlePointerMove move.1 r move.2)
           (handlePointerDown down.1 refs down.2) moves).

End Handlers.

(** *** [handleZoom], [App.tsx] lines 67-88, over exact arithmetic *)

(** ['in' | 'out'] *)
Inductive ZoomDirection := zoom_in | zoom_out.

(** The methods of [THREE.Vector3] that [handleZoom] calls. *)
Definition subVectors (a b : Vector3.t R) : Vector3.t R :=
  Vector3.make (Vector3.x a - Vector3.x b)%R (Vector3.y a - Vector3.y b)%R
               (Vector3.z a - Vector3.z b)%R.
Definition multiplyScalar (v : Vector3.t R) (s : R) : Vector3.t R :=
  Vector3.make (Vector3.x v * s)%R (Vector3.y v * s)%R (Vector3.z v * s)%R.
Definition addVectors (a b : Vector3.t R) : Vector3.t R :=
  Vector3.make (Vector3.x a + Vector3.x b)%R (Vector3.y a + Vector3.y b)%R
               (Vector3.z a + Vector3.z b)%R.
Definition distanceTo (a b : Vector3.t R) : R :=
  let dx := (Vector3.x a - Vector3.x b)%R in
  let dy := (Vector3.y a - Vector3.y b)%R in
  let dz := (Vector3.z a - Vector3.z b)%R in
  sqrt (dx * dx + dy * dy + dz * dz).

(** [direction === 'in' ? 0.8 : 1.2] *)
Definition zoomFactor (direction : ZoomDirection) : R :=
  match direction with zoom_in => (8 / 10)%R | zoom_out => (12 / 10)%R end.

(** The camera position the handler proposes. *)
Definition zoomPosition (direction : ZoomDirection) (controls : OrbitControls R)
  : Vector3.t R :=
  let directionVec :=
    multiplyScalar (subVectors (object_position controls) (target controls))
                   (zoomFactor direction) in
  addVectors (target controls) directionVec.

(** [update] is [controls.update()] of the orbit controls, whose code is
    not part of the repository. *)
Definition handleZoom (update : OrbitControls R -> OrbitControls R)
    (direction : ZoomDirection) (controlsRef_current : option (OrbitControls R))
  : option (OrbitControls R) :=
  match controlsRef_current with
  | None => None
  | Some controls =>
      let newPosition := zoomPosition direction controls in
      let dist := distanceTo newPosition (target controls) in
      if Rle_dec (minDistance controls) dist then
        if Rle_dec dist (maxDistance controls) then
          Some (update (setPosition newPosition controls))
        else Some controls
      else Some controls
  end.

(** What the zoom properties ask of [controls.update()]: it leaves the
    camera where the handler put it, and the target and limits as they are. *)
Definition keepsCamera (update : OrbitControls R -> OrbitControls R) : Prop :=
  forall controls,
    object_position (update controls) = object_position controls /\
    target (update controls) = target controls /\
    minDistance (update controls) = minDistance controls /\
    maxDistance (update controls) = maxDistance controls.

(** The controls as [App] sets them up: camera at [(25, 25, 25)], target
    the origin, [minDistance = 10], [maxDistance = 100]. *)
Definition appControls : OrbitControls R :=
  mkControls true (Vector3.make 25%R 25%R 25%R) (Vector3.make 0%R 0%R 0%R)
             10%R 100%R.

(** A one-vertex mesh and a pointer event at its vertex. *)
Definition pointMesh : option (BufferGeometry R) :=
  Some (mkGeometry (Some [Vector3.make 0%R 0%R 0%R]) []).
Definition pointEvent : ThreeEvent R :=
  mkEvent (Some (Vector3.make 0%R 0%R 0%R)).

(** The strengths of a sequence of calls, added up. *)
Definition totalStrength (calls : list (BrushSettings R * ThreeEvent R)) : R :=
  foldr (fun call acc => (Rabs (strength call.1) + acc)%R) 0%R calls.

(** ** Vertex normals *)

Section Normals.
Context {num : Type} {JS : JSNumber num}.

(** The methods of [THREE.Vector3] that the estimation of normals calls. *)
Definition Vector3_sub (a b : Vector3.t num) : Vector3.t num :=
  Vector3.make (sub (Vector3.x a) (Vector3.x b)) (sub (Vector3.y a) (Vector3.y b))
               (sub (Vector3.z a) (Vector3.z b)).
Definition Vector3_add (a b : Vector3.t num) : Vector3.t num :=
  Vector3.make (add (Vector3.x a) (Vector3.x b)) (add (Vector3.y a) (Vector3.y b))
               (add (Vector3.z a) (Vector3.z b)).
Definition Vector3_cross (a b : Vector3.t num) : Vector3.t num :=
  Vector3.make
    (sub (mul (Vector3.y a) (Vector3.z b)) (mul (Vector3.z a) (Vector3.y b)))
    (sub (mul (Vector3.z a) (Vector3.x b)) (mul (Vector3.x a) (Vector3.z b)))
    (sub (mul (Vector3.x a) (Vector3.y b)) (mul (Vector3.y a) (Vector3.x b))).
Definition Vector3_length (v : Vector3.t num) : num :=
  Math_sqrt (add (add (mul (Vector3.x v) (Vector3.x v))
                      (mul (Vector3.y v) (Vector3.y v)))
                 (mul (Vector3.z v) (Vector3.z v))).
(** [v.divideScalar(v.length() || 1)]: a length that is [0] or NaN is
    replaced by [1]; a length is never negative. *)
Definition Vector3_normalize (v : Vector3.t num) : Vector3.t num :=
  let len := Vector3_length v in
  let scalar := div (of_Z 1) (if ltb (of_Z 0) len then len else of_Z 1) in
  Vector3.make (mul (Vector3.x v) scalar) (mul (Vector3.y v) scalar)
               (mul (Vector3.z v) scalar).
(** The normal attribute is a [Float32Array] too. *)
Definition setXYZ (v : Vector3.t num) : Vector3.t num :=
  Vector3.make (Math_fround (Vector3.x v)) (Math_fround (Vector3.y v))
               (Math_fround (Vector3.z v)).

(** Modelled from the spec: the fixed triangulation of the grid, two
    triangles for each cell, row after row.  The cell at column [cx] of row
    [cy] has the corners [a = (cx, cy)], [b = (cx, cy+1)],
    [c = (cx+1, cy+1)] and [d = (cx+1, cy)], and the triangles [(a, b, d)]
    and [(b, c, d)]. *)
Definition cellFaces (segments cx cy : nat) : list (nat * nat * nat) :=
  let a := cy * S segments + cx in
  let b := S cy * S segments + cx in
  let c := S cy * S segments + S cx in
  let d := cy * S segments + S cx in
  [(a, b, d); (b, c, d)].

Definition faces (segments : nat) : list (nat * nat * nat) :=
  cy ← seq 0 segments; cx ← seq 0 segments; cellFaces segments cx cy.

(** Modelled from the spec: the face normal of a triangle [(vA, vB, vC)],
    weighted by its area: [(pC - pB) x (pA - pB)]. *)
Definition faceNormal (positions : BufferAttribute num) (face : nat * nat * nat)
  : option (Vector3.t num) :=
  pA ← positions !! face.1.1;
  pB ← positions !! face.1.2;
  pC ← positions !! face.2;
  Some (Vector3_cross (Vector3_sub pC pB) (Vector3_sub pA pB)).

(** Modelled from the spec: the normal of vertex [i] is the normalized sum
    of the face normals of the triangles incident to it, added up in the
    order of the triangulation. *)
Definition vertexNormal (segments : nat) (positions : BufferAttribute num)
    (i : nat) : Vector3.t num :=
  let incident :=
    filter (fun face : nat * nat * nat =>
              face.1.1 = i \/ face.1.2 = i \/ face.2 = i) (faces segments) in
  let sum :=
    foldl (fun n cb => setXYZ (Vector3_add n cb))
          (Vector3.make (of_Z 0) (of_Z 0) (of_Z 0))
          (omap (faceNormal positions) incident) in
  setXYZ (Vector3_normalize sum).

(** Modelled from the spec: [geom.computeVertexNormals()] on a grid of
    [segments x segments] cells, one normal for each vertex. *)
Definition computeVertexNormals (segments : nat)
    (positions : BufferAttribute num) : list (Vector3.t num) :=
  vertexNormal segments positions <$> seq 0 (length positions).

End Normals.

Section TerrainFacts.
Context {num : Type} {JS : JSNumber num}.

(** A loop over the indices of a buffer whose body rewrites the vertex at
    its index, and nothing else, maps the vertex update over the buffer. *)
Lemma foldl_index_fmap (body : BufferAttribute num -> nat -> BufferAttribute num)
    (f : Vector3.t num -> Vector3.t num) :
  (forall done v rest,
      body (done ++ v :: rest) (length done) = done ++ f v :: rest) ->
  forall positions,
    foldl body positions (seq 0 (length positions)) = f <$> positions.
Proof.
  intros Hbody positions.
  enough (Hgen : forall rest done,
             foldl body (done ++ rest) (seq (length done) (length rest))
             = done ++ (f <$> rest))
    by apply (Hgen positions []).
  induction rest as [|v rest IH]; intros done; simpl.
  - reflexivity.
  - rewrite Hbody.
    replace (done ++ f v :: rest) with ((done ++ [f v]) ++ rest)
      by now rewrite <- app_assoc.
    replace (S (length done)) with (length (done ++ [f v]))
      by (rewrite length_app; simpl; lia).
    rewrite IH, <- app_assoc. reflexivity.
Qed.

Lemma setY_middle (done rest : BufferAttribute num) (v : Vector3.t num) (h : num) :
  setY (done ++ v :: rest) (length done) h
  = done ++ Vector3.make (Vector3.x v) (Math_fround h) (Vector3.z v) :: rest.
Proof.
  unfold setY.
  rewrite list_lookup_middle by reflexivity.
  rewrite insert_app_r_alt, Nat.sub_diag by lia. reflexivity.
Qed.

(** The brush loop updates every vertex on its own. *)
Lemma modifyTerrain_loop_fmap (brush : BrushSettings num)
    (p : Vector3.t num) (positions : BufferAttribute num) :
  modifyTerrain_loop brush p positions = modifyVertex brush p <$> positions.
Proof.
  unfold modifyTerrain_loop. apply foldl_index_fmap.
  intros done v rest. unfold modifyTerrain_body, modifyVertex, getY.
  rewrite list_lookup_middle by reflexivity.
  destruct (ltb _ _); [apply setY_middle | reflexivity].
Qed.

(** So does the generation loop. *)
Lemma geometry_loop_fmap (noise2D : num -> num -> num)
    (positions : BufferAttribute num) :
  foldl (geometry_body noise2D) positions (seq 0 (length positions))
  = generateVertex noise2D <$> positions.
Proof.
  apply foldl_index_fmap.
  intros done v rest. unfold geometry_body, generateVertex.
  rewrite list_lookup_middle by reflexivity. apply setY_middle.
Qed.

Lemma modifyVertex_xz (brush : BrushSettings num) (p v : Vector3.t num) :
  Vector3.x (modifyVertex brush p v) = Vector3.x v /\
  Vector3.z (modifyVertex brush p v) = Vector3.z v.
Proof. unfold modifyVertex. destruct (ltb _ _); split; reflexivity. Qed.

Lemma modifyVertex_distSq (brush : BrushSettings num) (p q v : Vector3.t num) :
  distSq q (modifyVertex brush p v) = distSq q v.
Proof.
  unfold distSq. destruct (modifyVertex_xz brush p v) as [-> ->]. reflexivity.
Qed.

Lemma planar_modifyTerrain_loop (brush : BrushSettings num)
    (p : Vector3.t num) (positions : BufferAttribute num) :
  planar (modifyTerrain_loop brush p positions) = planar positions.
Proof.
  rewrite modifyTerrain_loop_fmap. unfold planar.
  rewrite <- list_fmap_compose. apply list_fmap_ext.
  intros i v _. simpl.
  destruct (modifyVertex_xz brush p v) as [-> ->]. reflexivity.
Qed.

Lemma positions_of_generate (cvn : BufferAttribute num -> list (Vector3.t num))
    (size : num) (segments : nat) (noise2D : num -> num -> num) :
  positions_of (Some (generate cvn size segments noise2D))
  = generateVertex noise2D <$> PlaneGeometry size size segments segments.
Proof. rewrite <- geometry_loop_fmap. reflexivity. Qed.

Lemma planar_generate (cvn : BufferAttribute num -> list (Vector3.t num))
    (size : num) (segments : nat) (noise2D : num -> num -> num) :
  planar (positions_of (Some (generate cvn size segments noise2D)))
  = planar (PlaneGeometry size size segments segments).
Proof.
  rewrite positions_of_generate. unfold planar.
  rewrite <- list_fmap_compose. apply list_fmap_ext.
  intros i v _. reflexivity.
Qed.

Lemma planar_modifyTerrain (cvn : BufferAttribute num -> list (Vector3.t num))
    (brush : BrushSettings num) (mesh : option (BufferGeometry num))
    (event : ThreeEvent num) :
  planar (positions_of (modifyTerrain cvn brush mesh event))
  = planar (positions_of mesh).
Proof.
  unfold modifyTerrain.
  destruct mesh as [geom|]; [|reflexivity].
  destruct (point event) as [p|]; [|reflexivity].
  destruct (position geom) as [positions|] eqn:Hpos; [|reflexivity].
  unfold positions_of. simpl. rewrite Hpos. simpl.
  apply planar_modifyTerrain_loop.
Qed.

Lemma modifyVertex_eq (brush : BrushSettings num) (p v : Vector3.t num) :
  modifyVertex brush p v
  = if ltb (distSq p v) (brushSizeSq brush) then
      Vector3.make (Vector3.x v)
        (Math_fround (add (Vector3.y v) (displacement brush (distSq p v))))
        (Vector3.z v)
    else v.
Proof. reflexivity. Qed.

(** In every number model, a vertex that fails the footprint test is left
    as it was. *)
Lemma outside_footprint_untouched (brush : BrushSettings num)
    (p : Vector3.t num) (positions : BufferAttribute num)
    (i : nat) (v : Vector3.t num) :
  positions !! i = Some v ->
  ltb (distSq p v) (brushSizeSq brush) = false ->
  modifyTerrain_loop brush p positions !! i = Some v.
Proof.
  intros Hi Hout.
  rewrite modifyTerrain_loop_fmap, list_lookup_fmap, Hi. simpl.
  now rewrite modifyVertex_eq, Hout.
Qed.

(** The buffer after a call, whatever the guards decide. *)
Lemma positions_of_modifyTerrain
    (cvn : BufferAttribute num -> list (Vector3.t num))
    (brush : BrushSettings num) (mesh : option (BufferGeometry num))
    (event : ThreeEvent num) :
  positions_of (modifyTerrain cvn brush mesh event)
  = match point event with
    | Some p => modifyTerrain_loop brush p (positions_of mesh)
    | None => positions_of mesh
    end.
Proof.
  unfold modifyTerrain.
  destruct mesh as [geom|], (point event) as [p|]; try reflexivity.
  unfold positions_of. cbn [mbind option_bind].
  destruct (position geom) as [positions|] eqn:Hpos.
  - reflexivity.
  - cbn [mbind option_bind]. rewrite Hpos. reflexivity.
Qed.

(** *** The plane grid *)

Lemma lookup_rows {A : Type} (row : nat -> list A) (n : nat) :
  (forall r, length (row r) = n) ->
  forall rows start r j, r < rows -> j < n ->
    (seq start rows ≫= row) !! (r * n + j) = row (start + r) !! j.
Proof.
  intros Hlen. induction rows as [|rows IH]; intros start r j Hr Hj; [lia|].
  cbn [seq]. rewrite bind_cons.
  destruct r as [|r].
  - rewrite lookup_app_l by (rewrite Hlen; lia).
    now rewrite Nat.add_0_r.
  - rewrite lookup_app_r by (rewrite Hlen; lia).
    rewrite Hlen.
    replace (S r * n + j - n) with (r * n + j) by lia.
    rewrite IH by lia. f_equal. f_equal. lia.
Qed.

Lemma PlaneGeometry_lookup (width height : num) (ws hs ix iy : nat) :
  ix <= ws -> iy <= hs ->
  PlaneGeometry width height ws hs !! (iy * S ws + ix)
  = Some (gridVertex width height ws hs ix iy).
Proof.
  intros Hix Hiy. unfold PlaneGeometry.
  rewrite (lookup_rows _ (S ws)); [| | lia | lia].
  - rewrite list_lookup_fmap, lookup_seq_lt by lia. reflexivity.
  - intros r. now rewrite length_fmap, length_seq.
Qed.

Lemma PlaneGeometry_elem (width height : num) (ws hs : nat) (v : Vector3.t num) :
  v ∈ PlaneGeometry width height ws hs ->
  exists ix iy, ix <= ws /\ iy <= hs /\ v = gridVertex width height ws hs ix iy.
Proof.
  unfold PlaneGeometry. intros Hv.
  apply list_elem_of_bind in Hv as (iy & Hv & Hiy).
  apply list_elem_of_fmap in Hv as (ix & -> & Hix).
  apply elem_of_seq in Hiy, Hix.
  exists ix, iy. repeat split; lia.
Qed.

(** C5. Topology invariance: after any sequence of brush applications
    every vertex has the [x] and [z] it had before the sequence, and for a
    mesh built by [geometry] these are the [x] and [z] of the plane grid
    it was constructed from; the calls change heights and normals only. *)
Theorem strokes_keep_planar (cvn : BufferAttribute num -> list (Vector3.t num))
    (calls : list (BrushSettings num * ThreeEvent num)) :
  (forall mesh : option (BufferGeometry num),
      planar (positions_of (strokes cvn mesh calls))
      = planar (positions_of mesh)) /\
  (forall noise2D : num -> num -> num,
      planar (positions_of (strokes cvn (Some (geometry cvn noise2D)) calls))
      = planar (PlaneGeometry TERRAIN_SIZE TERRAIN_SIZE
                              TERRAIN_SEGMENTS TERRAIN_SEGMENTS)).
Proof.
  assert (Hseq : forall mesh : option (BufferGeometry num),
             planar (positions_of (strokes cvn mesh calls))
             = planar (positions_of mesh)).
  { unfold strokes. induction calls as [|[brush event] calls IH]; intros mesh.
    - reflexivity.
    - simpl. rewrite IH. apply planar_modifyTerrain. }
  split; [exact Hseq|].
  intros noise2D. rewrite Hseq. apply planar_generate.
Qed.

(** *** Generation *)

(** Generation reads the noise field at the sample points
    [(x / 40, z / 40)] of the grid and nowhere else. *)
Lemma generate_ext
    (cvn : BufferAttribute num -> list (Vector3.t num))
    (size : num) (segments : nat) (noise1 noise2 : num -> num -> num) :
  (forall v, v ∈ PlaneGeometry size size segments segments ->
     noise1 (div (Vector3.x v) (of_Z 40)) (div (Vector3.z v) (of_Z 40))
     = noise2 (div (Vector3.x v) (of_Z 40)) (div (Vector3.z v) (of_Z 40))) ->
  generate cvn size segments noise1 = generate cvn size segments noise2.
Proof.
  intros Hsame. unfold generate. cbv zeta. rewrite !geometry_loop_fmap.
  assert (Heq : generateVertex noise1 <$> PlaneGeometry size size segments segments
                = generateVertex noise2 <$> PlaneGeometry size size segments segments).
  { apply list_fmap_ext. intros i v Hi. unfold generateVertex.
    rewrite Hsame; [reflexivity|]. now apply list_elem_of_lookup_2 in Hi. }
  now rewrite Heq.
Qed.

(** *** Normals *)

(** Whenever a call gets past its guards, the normals it leaves are those
    of the positions it leaves. *)
Lemma modifyTerrain_normals
    (cvn : BufferAttribute num -> list (Vector3.t num))
    (brush : BrushSettings num) (geom : BufferGeometry num)
    (positions : BufferAttribute num) (p : Vector3.t num) :
  position geom = Some positions ->
  exists geom',
    modifyTerrain cvn brush (Some geom) (mkEvent (Some p)) = Some geom' /\
    normal geom' = cvn (positions_of (Some geom')).
Proof.
  intros Hpos. unfold modifyTerrain. cbn [point]. rewrite Hpos.
  eexists. split; reflexivity.
Qed.

Lemma generate_normals
    (cvn : BufferAttribute num -> list (Vector3.t num))
    (size : num) (segments : nat) (noise2D : num -> num -> num) :
  normal (generate cvn size segments noise2D)
  = cvn (positions_of (Some (generate cvn size segments noise2D))).
Proof. reflexivity. Qed.

(** *** Invariants of a mesh over its life *)

Lemma planar_strokes (cvn : BufferAttribute num -> list (Vector3.t num))
    (calls : list (BrushSettings num * ThreeEvent num))
    (mesh : option (BufferGeometry num)) :
  planar (positions_of (strokes cvn mesh calls)) = planar (positions_of mesh).
Proof.
  revert mesh. unfold strokes.
  induction calls as [|call calls IH]; intros mesh; [reflexivity|].
  cbn [foldl]. rewrite IH. apply planar_modifyTerrain.
Qed.

Lemma length_rows {A : Type} (row : nat -> list A) (n : nat) :
  (forall r, length (row r) = n) ->
  forall rows start, length (seq start rows ≫= row) = rows * n.
Proof.
  intros Hlen. induction rows as [|rows IH]; intros start; [reflexivity|].
  cbn [seq]. rewrite bind_cons, length_app, Hlen, IH. reflexivity.
Qed.

Lemma length_PlaneGeometry (width height : num) (ws hs : nat) :
  length (PlaneGeometry width height ws hs) = S hs * S ws.
Proof.
  unfold PlaneGeometry. apply length_rows.
  intros r. now rewrite length_fmap, length_seq.
Qed.

(** X1. The number of vertices never changes: a mesh generated with
    [segments] segments has [(segments+1) * (segments+1)] vertices, and
    still has after any sequence of brush applications. *)
Theorem vertex_count_fixed
    (cvn : BufferAttribute num -> list (Vector3.t num))
    (size : num) (segments : nat) (noise : num -> num -> num)
    (calls : list (BrushSettings num * ThreeEvent num)) :
  length (positions_of (strokes cvn (Some (generate cvn size segments noise)) calls))
  = S segments * S segments.
Proof.
  rewrite <- (length_fmap (fun v => (Vector3.x v, Vector3.z v))).
  change (length (planar (positions_of
            (strokes cvn (Some (generate cvn size segments noise)) calls)))
          = S segments * S segments).
  rewrite planar_strokes, planar_generate. unfold planar.
  rewrite length_fmap. apply length_PlaneGeometry.
Qed.

Lemma strokes_shape (cvn : BufferAttribute num -> list (Vector3.t num))
    (calls : list (BrushSettings num * ThreeEvent num))
    (positions : BufferAttribute num) :
  exists positions',
    strokes cvn (Some (mkGeometry (Some positions) (cvn positions))) calls
    = Some (mkGeometry (Some positions') (cvn positions')).
Proof.
  revert positions. unfold strokes.
  induction calls as [|[brush event] calls IH]; intros positions.
  - now exists positions.
  - cbn [foldl fst snd]. unfold modifyTerrain at 2. cbn [position].
    destruct (point event) as [p|]; apply IH.
Qed.

(** X2. Normals are never stale: after generation and any sequence of
    brush applications, whether the guards let them through or not, the
    normals of the mesh are those computed from its current positions. *)
Theorem normals_follow_positions
    (cvn : BufferAttribute num -> list (Vector3.t num))
    (size : num) (segments : nat) (noise : num -> num -> num)
    (calls : list (BrushSettings num * ThreeEvent num)) :
  exists positions,
    strokes cvn (Some (generate cvn size segments noise)) calls
    = Some (mkGeometry (Some positions) (cvn positions)).
Proof. unfold generate. cbv zeta. apply strokes_shape. Qed.

(** *** The pointer handlers *)

Lemma moves_are_strokes (cvn : BufferAttribute num -> list (Vector3.t num))
    (moves : list (BrushSettings num * PointerEvent num)) (refs : Refs num) :
  let after := foldl (fun r move => handlePointerMove cvn move.1 r move.2)
                     refs moves in
  meshRef after
  = strokes cvn (meshRef refs)
      ((fun move => (move.1, threeEvent move.2))
         <$> filter (fun move => buttons move.2 = 1%Z) moves) /\
  controlsRef after = controlsRef refs.
Proof.
  revert refs. induction moves as [|[brush event] moves IH]; intros refs.
  - split; reflexivity.
  - cbn [foldl fst snd]. cbv zeta in IH.
    destruct (IH (handlePointerMove cvn brush refs event)) as [Hmesh Hctl].
    cbv zeta. rewrite Hmesh, Hctl. rewrite filter_cons. cbn [fst snd].
    unfold handlePointerMove.
    destruct (decide (buttons event = 1%Z)) as [Heq|Hne].
    + rewrite Heq. cbn [Z.eqb Pos.eqb meshRef controlsRef]. split; reflexivity.
    + apply Z.eqb_neq in Hne. rewrite Hne. split; reflexivity.
Qed.

(** X3. A drag is a sequence of brush applications: pressing on the terrain,
    moving and releasing sculpts exactly as [modifyTerrain] called at the
    press and at every move whose [buttons] is [1] (a move with another
    value does nothing), and leaves the orbit controls, if any, enabled and
    otherwise as they were. *)
Theorem drag_is_strokes (cvn : BufferAttribute num -> list (Vector3.t num))
    (refs : Refs num) (down : BrushSettings num * PointerEvent num)
    (moves : list (BrushSettings num * PointerEvent num)) :
  meshRef (drag cvn refs down moves)
  = strokes cvn (meshRef refs)
      ((down.1, threeEvent down.2)
         :: ((fun move => (move.1, threeEvent move.2))
               <$> filter (fun move => buttons move.2 = 1%Z) moves)) /\
  controlsRef (drag cvn refs down moves) = setEnabled true <$> controlsRef refs.
Proof.
  unfold drag.
  destruct (moves_are_strokes cvn moves (handlePointerDown cvn down.1 refs down.2))
    as [Hmesh Hctl].
  cbv zeta in Hmesh, Hctl.
  set (after := foldl _ _ moves) in *.
  assert (Hdown : controlsRef (handlePointerDown cvn down.1 refs down.2)
                  = setEnabled false <$> controlsRef refs)
    by (unfold handlePointerDown; cbn [controlsRef];
        now destruct (controlsRef refs)).
  change (meshRef (handlePointerDown cvn down.1 refs down.2))
    with (modifyTerrain cvn down.1 (meshRef refs) (threeEvent down.2)) in Hmesh.
  rewrite Hdown in Hctl. unfold handlePointerUp. rewrite Hctl.
  destruct (controlsRef refs) as [controls|];
    cbn [fmap option_fmap option_map enabled setEnabled negb meshRef controlsRef
         object_position target minDistance maxDistance].
  - split; [exact Hmesh | reflexivity].
  - split; [exact Hmesh | exact Hctl].
Qed.

End TerrainFacts.


(** ** Exact arithmetic *)

Section ExactFacts.
Local Open Scope R_scope.

Implicit Types (brush : BrushSettings R) (p v : Vector3.t R).

(** Read the operations of the interface as operations on reals. *)
Ltac exact_ops :=
  cbn [add sub mul div of_Z Math_sqrt Math_cos Math_PI Math_fround Exact] in *.

Lemma Exact_ltb_true (a b : R) : ltb a b = true <-> a < b.
Proof. simpl. destruct (Rlt_dec a b); split; (easy || lra). Qed.

Lemma Exact_ltb_false (a b : R) : ltb a b = false <-> b <= a.
Proof. simpl. destruct (Rlt_dec a b); split; (easy || lra). Qed.

Lemma distSq_nonneg p v : 0 <= distSq p v.
Proof.
  unfold distSq. exact_ops.
  pose proof (Rle_0_sqr (Vector3.x v - Vector3.x p)).
  pose proof (Rle_0_sqr (Vector3.z v - Vector3.z p)).
  unfold Rsqr in *. lra.
Qed.

Lemma dist_nonneg p v : 0 <= dist p v.
Proof. apply sqrt_pos. Qed.

Lemma dist_square p v : dist p v * dist p v = distSq p v.
Proof. apply sqrt_sqrt, distSq_nonneg. Qed.

(** Inside the footprint, in terms of the distance itself. *)
Lemma distSq_lt_iff brush p v :
  0 < size brush ->
  (distSq p v < size brush * size brush <-> dist p v < size brush).
Proof.
  intros HR. pose proof (dist_nonneg p v). pose proof (dist_square p v).
  split; intros Hlt; nra.
Qed.

Lemma modifyVertex_inside brush p v :
  distSq p v < size brush * size brush ->
  modifyVertex brush p v
  = Vector3.make (Vector3.x v)
      (Vector3.y v + displacement brush (distSq p v)) (Vector3.z v).
Proof.
  intros Hin. unfold modifyVertex.
  replace (ltb (distSq p v) (brushSizeSq brush)) with true; [reflexivity|].
  symmetry. now apply Exact_ltb_true.
Qed.

Lemma modifyVertex_outside brush p v :
  size brush * size brush <= distSq p v -> modifyVertex brush p v = v.
Proof.
  intros Hout. unfold modifyVertex.
  replace (ltb (distSq p v) (brushSizeSq brush)) with false; [reflexivity|].
  symmetry. now apply Exact_ltb_false.
Qed.

Lemma falloff_unfold brush (d2 : R) :
  falloff brush d2 = (cos (sqrt d2 / size brush * PI) + 1) / 2.
Proof. reflexivity. Qed.

Lemma falloff_bounds brush (d2 : R) : 0 <= falloff brush d2 <= 1.
Proof.
  rewrite falloff_unfold.
  pose proof (COS_bound (sqrt d2 / size brush * PI)). lra.
Qed.

Lemma falloff_centre brush : falloff brush 0 = 1.
Proof.
  rewrite falloff_unfold, sqrt_0.
  replace (0 / size brush * PI) with 0 by (unfold Rdiv; ring).
  rewrite cos_0. lra.
Qed.

(** The angle fed to the cosine lies in [[0, PI]] within the footprint. *)
Lemma angle_range (R0 d : R) :
  0 < R0 -> 0 <= d <= R0 -> 0 <= d / R0 * PI <= PI.
Proof.
  intros HR [Hd0 HdR]. pose proof PI_RGT_0 as Hpi.
  assert (Hq : 0 <= d / R0 <= 1).
  { split.
    - apply Rmult_le_pos; [lra | left; now apply Rinv_0_lt_compat].
    - apply (Rmult_le_reg_r R0); [lra|]. unfold Rdiv.
      rewrite Rmult_assoc, Rinv_l by lra. lra. }
  split; nra.
Qed.


Lemma falloff_positive brush (d2 : R) :
  0 < size brush -> 0 <= d2 -> sqrt d2 < size brush -> 0 < falloff brush d2.
Proof.
  intros HR Hd2 Hlt. rewrite falloff_unfold.
  pose proof (sqrt_pos d2) as Hs. pose proof PI_RGT_0 as Hpi.
  destruct (angle_range (size brush) (sqrt d2) HR) as [Ha0 Ha1]; [lra|].
  assert (Hstrict : sqrt d2 / size brush * PI < PI).
  { assert (sqrt d2 / size brush < 1).
    { apply (Rmult_lt_reg_r (size brush)); [lra|]. unfold Rdiv.
      rewrite Rmult_assoc, Rinv_l by lra. lra. }
    nra. }
  pose proof (cos_decreasing_1 (sqrt d2 / size brush * PI) PI
                Ha0 Ha1 (Rlt_le _ _ Hpi) (Rle_refl PI) Hstrict) as Hcos.
  rewrite cos_PI in Hcos. lra.
Qed.



Lemma delta_inside brush p v :
  distSq p v < size brush * size brush ->
  delta brush p v = displacement brush (distSq p v).
Proof.
  intros Hin. unfold delta. rewrite modifyVertex_inside by assumption.
  simpl. change (add ?a ?b) with (a + b). ring.
Qed.

Lemma delta_outside brush p v :
  size brush * size brush <= distSq p v -> delta brush p v = 0.
Proof.
  intros Hout. unfold delta. rewrite modifyVertex_outside by assumption. ring.
Qed.

(** *** Footprint *)

(** C2 (amended). Footprint boundary.  In every number model a vertex
    that fails the footprint test [distSq < size * size] is left as it
    was.  Over exact arithmetic a vertex whose squared planar distance from
    the brush centre is at least the squared radius keeps its height, and
    when some vertex lies at distance less than the radius and the strength
    is not zero, a vertex at distance less than the radius changes height. *)
Theorem footprint_boundary :
  (forall (num : Type) (JS : JSNumber num) (brush : BrushSettings num)
          (p : Vector3.t num) (positions : BufferAttribute num)
          (i : nat) (v : Vector3.t num),
     positions !! i = Some v ->
     ltb (distSq p v) (brushSizeSq brush) = false ->
     modifyTerrain_loop brush p positions !! i = Some v) /\
  (forall brush p (positions : BufferAttribute R),
     (forall i v, positions !! i = Some v ->
        size brush * size brush <= distSq p v ->
        modifyTerrain_loop brush p positions !! i = Some v) /\
     (strength brush <> 0 ->
      (exists i v, positions !! i = Some v /\ dist p v < size brush) ->
      exists i v v',
        positions !! i = Some v /\ dist p v < size brush /\
        modifyTerrain_loop brush p positions !! i = Some v' /\
        Vector3.y v' <> Vector3.y v)).
Proof.
  split.
  { intros num JS brush p positions i v. apply outside_footprint_untouched. }
  intros brush p positions.
  rewrite modifyTerrain_loop_fmap. split.
  - intros i v Hi Hout.
    rewrite list_lookup_fmap, Hi. simpl.
    now rewrite modifyVertex_outside.
  - intros Hs (i & v & Hi & Hlt).
    exists i, v, (modifyVertex brush p v).
    split; [assumption|]. split; [assumption|]. split.
    + now rewrite list_lookup_fmap, Hi.
    + pose proof (dist_nonneg p v) as Hd.
      assert (HR : 0 < size brush) by lra.
      assert (Hin : distSq p v < size brush * size brush)
        by now apply distSq_lt_iff.
      rewrite modifyVertex_inside by assumption. cbn [Vector3.y].
      pose proof (falloff_positive brush (distSq p v) HR (distSq_nonneg p v) Hlt)
        as Hf.
      unfold displacement. exact_ops.
      intros Heq.
      assert (Hprod : strength brush * falloff brush (distSq p v) = 0)
        by (destruct (direction brush); lra).
      apply Rmult_integral in Hprod. lra.
Qed.

(** *** Shape of the falloff *)



(** *** Algebra of strokes *)

Lemma modifyVertex_down_up (R0 s : R) p v :
  modifyVertex (mkBrush R0 s down) p (modifyVertex (mkBrush R0 s up) p v) = v.
Proof.
  rewrite (modifyVertex_eq (mkBrush R0 s down)), modifyVertex_distSq.
  destruct (modifyVertex_xz (mkBrush R0 s up) p v) as [-> ->].
  rewrite modifyVertex_eq.
  change (brushSizeSq (mkBrush R0 s down)) with (brushSizeSq (mkBrush R0 s up)).
  destruct (ltb (distSq p v) _); [|reflexivity].
  destruct v as [vx vy vz]. unfold displacement, falloff. exact_ops.
  cbn [Vector3.x Vector3.y Vector3.z size strength direction].
  f_equal. ring.
Qed.

(** C4 (amended, over exact arithmetic). Direction symmetry: a raising
    stroke followed by the lowering stroke with the same centre, radius and
    strength restores the height of every vertex. *)
Theorem raise_then_lower_restores
    (cvn : BufferAttribute R -> list (Vector3.t R))
    (R0 s : R) (mesh : option (BufferGeometry R)) (event : ThreeEvent R) :
  heights (positions_of
             (modifyTerrain cvn (mkBrush R0 s down)
                (modifyTerrain cvn (mkBrush R0 s up) mesh event) event))
  = heights (positions_of mesh).
Proof.
  rewrite !positions_of_modifyTerrain.
  destruct (point event) as [p|]; [|reflexivity].
  rewrite !modifyTerrain_loop_fmap, <- list_fmap_compose.
  f_equal. rewrite <- (list_fmap_id (positions_of mesh)) at 2.
  apply list_fmap_ext. intros i v _. apply modifyVertex_down_up.
Qed.

Lemma modifyVertex_negative_size (R0 s : R) (d : BrushDirection) p v :
  modifyVertex (mkBrush (- R0) s d) p v = modifyVertex (mkBrush R0 s d) p v.
Proof.
  rewrite !modifyVertex_eq.
  replace (brushSizeSq (mkBrush (- R0) s d)) with (brushSizeSq (mkBrush R0 s d))
    by (unfold brushSizeSq; exact_ops; simpl; ring).
  destruct (ltb _ _); [|reflexivity].
  f_equal. f_equal. unfold displacement, falloff. exact_ops.
  cbn [size strength direction].
  replace (sqrt (distSq p v) / - R0 * PI) with (- (sqrt (distSq p v) / R0 * PI)).
  - now rewrite cos_neg.
  - unfold Rdiv. rewrite Rinv_opp. ring.
Qed.

(** C9. A brush of size [-R] yields the same mesh as the brush of size [R]
    with the same strength and direction, at every centre and mesh state:
    the footprint test compares with [size * size] and the cosine is even. *)
Theorem negative_size_same_result
    (cvn : BufferAttribute R -> list (Vector3.t R))
    (R0 s : R) (d : BrushDirection)
    (mesh : option (BufferGeometry R)) (event : ThreeEvent R) :
  modifyTerrain cvn (mkBrush (- R0) s d) mesh event
  = modifyTerrain cvn (mkBrush R0 s d) mesh event.
Proof.
  assert (Hloop : forall p positions,
             modifyTerrain_loop (mkBrush (- R0) s d) p positions
             = modifyTerrain_loop (mkBrush R0 s d) p positions).
  { intros p positions. rewrite !modifyTerrain_loop_fmap.
    apply list_fmap_ext. intros i v _. apply modifyVertex_negative_size. }
  unfold modifyTerrain.
  destruct mesh as [geom|], (point event) as [p|]; try reflexivity.
  destruct (position geom) as [positions|]; [|reflexivity].
  cbv zeta. now rewrite Hloop.
Qed.

Lemma modifyVertex_commute (b1 b2 : BrushSettings R) (p1 p2 : Vector3.t R) v :
  modifyVertex b1 p1 (modifyVertex b2 p2 v)
  = modifyVertex b2 p2 (modifyVertex b1 p1 v).
Proof.
  rewrite (modifyVertex_eq b1 p1 (modifyVertex b2 p2 v)).
  rewrite (modifyVertex_eq b2 p2 (modifyVertex b1 p1 v)).
  rewrite !modifyVertex_distSq.
  destruct (modifyVertex_xz b2 p2 v) as [-> ->].
  destruct (modifyVertex_xz b1 p1 v) as [-> ->].
  rewrite !modifyVertex_eq.
  destruct (ltb (distSq p1 v) _), (ltb (distSq p2 v) _); try reflexivity.
  cbn [Vector3.x Vector3.y Vector3.z]. f_equal. exact_ops. ring.
Qed.

Lemma modifyTerrain_loop_commute (b1 b2 : BrushSettings R)
    (p1 p2 : Vector3.t R) (positions : BufferAttribute R) :
  modifyTerrain_loop b1 p1 (modifyTerrain_loop b2 p2 positions)
  = modifyTerrain_loop b2 p2 (modifyTerrain_loop b1 p1 positions).
Proof.
  rewrite !modifyTerrain_loop_fmap, <- !list_fmap_compose.
  apply list_fmap_ext. intros i v _. apply modifyVertex_commute.
Qed.

(** C10. The height change a brush application gives a vertex is the same
    whatever the current height of that vertex, and two brush applications,
    of any centres and settings, commute: either order yields the same
    mesh. *)
Theorem brush_applications_commute
    (cvn : BufferAttribute R -> list (Vector3.t R))
    (b1 b2 : BrushSettings R) (e1 e2 : ThreeEvent R)
    (mesh : option (BufferGeometry R)) :
  (forall p (vx vy vy' vz : R),
     delta b1 p (Vector3.make vx vy vz) = delta b1 p (Vector3.make vx vy' vz)) /\
  modifyTerrain cvn b1 (modifyTerrain cvn b2 mesh e2) e1
  = modifyTerrain cvn b2 (modifyTerrain cvn b1 mesh e1) e2.
Proof.
  split.
  - intros p vx vy vy' vz. unfold delta. rewrite !modifyVertex_eq.
    change (distSq p (Vector3.make vx vy' vz))
      with (distSq p (Vector3.make vx vy vz)).
    destruct (ltb _ _); cbn [Vector3.y]; exact_ops; ring.
  - unfold modifyTerrain.
    destruct mesh as [[[positions|] nrm]|], (point e1) as [p1|],
             (point e2) as [p2|]; cbn [position]; try reflexivity.
    cbv zeta. now rewrite modifyTerrain_loop_commute.
Qed.

(** *** The scenario of the spec *)

Lemma distSq_origin (a h c : R) :
  distSq origin (Vector3.make a h c) = a * a + c * c.
Proof. unfold distSq, origin. exact_ops. cbn [Vector3.x Vector3.z]. ring. Qed.

Lemma flatGrid_vertex (ix iy : nat) :
  (ix <= 128)%nat -> (iy <= 128)%nat ->
  flatGrid !! (iy * 129 + ix)%nat
  = Some (Vector3.make (INR ix * (100 / 128) - 50) 0 (INR iy * (100 / 128) - 50)).
Proof.
  intros Hix Hiy. unfold flatGrid, TERRAIN_SIZE, TERRAIN_SEGMENTS.
  rewrite PlaneGeometry_lookup by assumption.
  unfold gridVertex. exact_ops. rewrite <- !INR_IZR_INZ.
  f_equal. f_equal; simpl; lra.
Qed.

Lemma flatGrid_centre : flatGrid !! (64 * 129 + 64)%nat = Some origin.
Proof.
  rewrite flatGrid_vertex by lia. unfold origin.
  f_equal. f_equal; simpl; lra.
Qed.

Lemma modifyVertex_scenario_centre :
  modifyVertex scenarioBrush origin origin = Vector3.make 0 (1 / 2) 0.
Proof.
  rewrite modifyVertex_inside
    by (unfold origin; rewrite distSq_origin; simpl; lra).
  unfold origin at 2 4 5. rewrite distSq_origin.
  cbn [Vector3.x Vector3.y Vector3.z].
  replace (0 * 0 + 0 * 0) with 0 by ring.
  unfold displacement. rewrite falloff_centre. exact_ops.
  f_equal. simpl. lra.
Qed.

Lemma modifyVertex_scenario_edge (h : R) :
  modifyVertex scenarioBrush origin (Vector3.make 5 h 0) = Vector3.make 5 h 0.
Proof.
  apply modifyVertex_outside. rewrite distSq_origin. simpl. lra.
Qed.

Lemma modifyVertex_scenario_half (h : R) :
  modifyVertex scenarioBrush origin (Vector3.make (5 / 2) h 0)
  = Vector3.make (5 / 2) (h + 1 / 4) 0.
Proof.
  rewrite modifyVertex_inside by (rewrite distSq_origin; simpl; lra).
  rewrite distSq_origin. cbn [Vector3.x Vector3.y Vector3.z].
  replace (5 / 2 * (5 / 2) + 0 * 0) with (5 / 2 * (5 / 2)) by ring.
  unfold displacement. rewrite falloff_unfold, sqrt_square by lra.
  cbn [size strength direction scenarioBrush]. exact_ops.
  replace (5 / 2 / 5 * PI) with (PI / 2) by lra.
  rewrite cos_PI2. f_equal. lra.
Qed.

(** C1 (as the code has it). In the scenario of the spec the vertex at
    [(0, 0)] of the flat reference grid, row 64 and column 64, ends at
    height [0.5]; in any buffer, a vertex at [(5, 0)] keeps its height (it
    lies on the boundary of the footprint) and a vertex at [(2.5, 0)] is
    raised by [0.25], so from [0] to [0.25]. *)
Theorem scenario_heights :
  flatGrid !! (64 * 129 + 64)%nat = Some origin /\
  modifyTerrain_loop scenarioBrush origin flatGrid !! (64 * 129 + 64)%nat
  = Some (Vector3.make 0 (1 / 2) 0) /\
  (forall (positions : BufferAttribute R) (i : nat) (h : R),
     positions !! i = Some (Vector3.make 5 h 0) ->
     modifyTerrain_loop scenarioBrush origin positions !! i
     = Some (Vector3.make 5 h 0)) /\
  (forall (positions : BufferAttribute R) (i : nat) (h : R),
     positions !! i = Some (Vector3.make (5 / 2) h 0) ->
     modifyTerrain_loop scenarioBrush origin positions !! i
     = Some (Vector3.make (5 / 2) (h + 1 / 4) 0)).
Proof.
  split; [exact flatGrid_centre|]. split; [|split].
  - rewrite modifyTerrain_loop_fmap, list_lookup_fmap, flatGrid_centre.
    simpl. now rewrite modifyVertex_scenario_centre.
  - intros positions i h Hi.
    rewrite modifyTerrain_loop_fmap, list_lookup_fmap, Hi. simpl.
    now rewrite modifyVertex_scenario_edge.
  - intros positions i h Hi.
    rewrite modifyTerrain_loop_fmap, list_lookup_fmap, Hi. simpl.
    now rewrite modifyVertex_scenario_half.
Qed.

(** The columns of the reference grid are [0.78125] apart: none lies at
    [x = 5] or at [x = 2.5]. *)
Lemma flatGrid_columns (v : Vector3.t R) :
  v ∈ flatGrid -> Vector3.x v <> 5 /\ Vector3.x v <> 5 / 2.
Proof.
  intros Hv. unfold flatGrid, TERRAIN_SIZE, TERRAIN_SEGMENTS in Hv.
  apply PlaneGeometry_elem in Hv as (ix & iy & Hix & Hiy & ->).
  unfold gridVertex. exact_ops. cbn [Vector3.x].
  change (Z.of_nat 128) with 128%Z.
  split; intros Heq.
  - assert (Hz : IZR (Z.of_nat ix * 100) = IZR 7040)
      by (rewrite mult_IZR; lra).
    apply eq_IZR in Hz. lia.
  - assert (Hz : IZR (Z.of_nat ix * 100) = IZR 6720)
      by (rewrite mult_IZR; lra).
    apply eq_IZR in Hz. lia.
Qed.

(** C1 (as stated) fails: after the brush of the scenario the reference
    grid has no vertex at [(5, 0)] and none at [(2.5, 0)] whose height could
    be read. *)
Lemma scenario_grid_misses_5_and_2_5 :
  Forall (fun v => Vector3.x v <> 5 /\ Vector3.x v <> 5 / 2)
         (modifyTerrain_loop scenarioBrush origin flatGrid).
Proof.
  rewrite modifyTerrain_loop_fmap. apply Forall_fmap, Forall_forall.
  intros v Hv. simpl.
  destruct (modifyVertex_xz scenarioBrush origin v) as [-> _].
  now apply flatGrid_columns.
Qed.

(** *** Size of the height changes *)

Lemma Rabs_delta_le brush p v : Rabs (delta brush p v) <= Rabs (strength brush).
Proof.
  destruct (Rlt_dec (distSq p v) (size brush * size brush)) as [Hin|Hout].
  - rewrite delta_inside by assumption.
    pose proof (falloff_bounds brush (distSq p v)) as [Hf0 Hf1].
    unfold displacement. exact_ops.
    rewrite !Rabs_mult, (Rabs_pos_eq (falloff brush (distSq p v))) by assumption.
    pose proof (Rabs_pos (strength brush)) as Hs.
    destruct (direction brush).
    + rewrite Rabs_R1. nra.
    + rewrite (Rabs_left (-1)) by lra. nra.
  - rewrite delta_outside by lra. rewrite Rabs_R0. apply Rabs_pos.
Qed.

Lemma modifyTerrain_step_bound
    (cvn : BufferAttribute R -> list (Vector3.t R)) brush
    (mesh : option (BufferGeometry R)) (event : ThreeEvent R) :
  Forall2 (fun v0 v1 => Rabs (Vector3.y v1 - Vector3.y v0) <= Rabs (strength brush))
          (positions_of mesh) (positions_of (modifyTerrain cvn brush mesh event)).
Proof.
  rewrite positions_of_modifyTerrain.
  destruct (point event) as [p0|].
  - rewrite modifyTerrain_loop_fmap. apply Forall2_fmap_r.
    apply Forall_Forall2_diag, Forall_forall. intros v _. simpl.
    apply (Rabs_delta_le brush p0 v).
  - apply Forall_Forall2_diag, Forall_forall. intros v _.
    replace (Vector3.y v - Vector3.y v) with 0 by ring.
    rewrite Rabs_R0. apply Rabs_pos.
Qed.

(** X4. Heights move by at most the strengths spent: after any sequence of
    brush applications every vertex is within the sum of the absolute
    strengths of the calls from the height it started at. *)
Theorem heights_drift_bounded
    (cvn : BufferAttribute R -> list (Vector3.t R))
    (calls : list (BrushSettings R * ThreeEvent R))
    (mesh : option (BufferGeometry R)) :
  Forall2 (fun v0 v1 => Rabs (Vector3.y v1 - Vector3.y v0) <= totalStrength calls)
          (positions_of mesh) (positions_of (strokes cvn mesh calls)).
Proof.
  revert mesh. unfold strokes.
  induction calls as [|[brush event] calls IH]; intros mesh.
  - apply Forall_Forall2_diag, Forall_forall. intros v _. simpl.
    replace (Vector3.y v - Vector3.y v) with 0 by ring.
    rewrite Rabs_R0. lra.
  - cbn [foldl fst snd totalStrength foldr].
    eapply Forall2_trans;
      [| apply (modifyTerrain_step_bound cvn brush mesh event) | apply IH].
    intros v0 v1 v2 H01 H12. cbn beta in *.
    replace (Vector3.y v2 - Vector3.y v0)
      with ((Vector3.y v2 - Vector3.y v1) + (Vector3.y v1 - Vector3.y v0)) by ring.
    eapply Rle_trans; [apply Rabs_triang|]. fold (totalStrength calls). lra.
Qed.

Lemma delta_sign brush p v :
  0 <= strength brush ->
  match direction brush with
  | up => 0 <= delta brush p v
  | down => delta brush p v <= 0
  end.
Proof.
  intros Hs.
  destruct (Rlt_dec (distSq p v) (size brush * size brush)) as [Hin|Hout].
  - rewrite delta_inside by assumption.
    pose proof (falloff_bounds brush (distSq p v)) as [Hf0 _].
    unfold displacement. exact_ops. destruct (direction brush); nra.
  - rewrite delta_outside by lra. destruct (direction brush); lra.
Qed.

(** X5. A brush of non-negative strength moves heights one way only: with
    direction [up] no vertex ends lower than it was, with direction [down]
    none ends higher. *)
Theorem direction_is_one_way
    (cvn : BufferAttribute R -> list (Vector3.t R)) (R0 s : R)
    (mesh : option (BufferGeometry R)) (event : ThreeEvent R) :
  0 <= s ->
  Forall2 (fun v0 v1 => Vector3.y v0 <= Vector3.y v1)
          (positions_of mesh)
          (positions_of (modifyTerrain cvn (mkBrush R0 s up) mesh event)) /\
  Forall2 (fun v0 v1 => Vector3.y v1 <= Vector3.y v0)
          (positions_of mesh)
          (positions_of (modifyTerrain cvn (mkBrush R0 s down) mesh event)).
Proof.
  intros Hs. rewrite !positions_of_modifyTerrain.
  destruct (point event) as [p0|].
  - rewrite !modifyTerrain_loop_fmap. split; apply Forall2_fmap_r;
      apply Forall_Forall2_diag, Forall_forall; intros v _; simpl.
    + pose proof (delta_sign (mkBrush R0 s up) p0 v Hs) as Hd.
      unfold delta in Hd. simpl in Hd. lra.
    + pose proof (delta_sign (mkBrush R0 s down) p0 v Hs) as Hd.
      unfold delta in Hd. simpl in Hd. lra.
  - split; apply Forall_Forall2_diag, Forall_forall; intros v _; lra.
Qed.

(** *** Strengths add up *)

Lemma modifyVertex_add_strength (R0 s1 s2 : R) (d : BrushDirection) p v :
  modifyVertex (mkBrush R0 s2 d) p (modifyVertex (mkBrush R0 s1 d) p v)
  = modifyVertex (mkBrush R0 (s1 + s2) d) p v.
Proof.
  rewrite (modifyVertex_eq (mkBrush R0 s2 d)), modifyVertex_distSq.
  destruct (modifyVertex_xz (mkBrush R0 s1 d) p v) as [-> ->].
  rewrite !modifyVertex_eq.
  change (brushSizeSq (mkBrush R0 s2 d)) with (brushSizeSq (mkBrush R0 s1 d)).
  change (brushSizeSq (mkBrush R0 (s1 + s2) d))
    with (brushSizeSq (mkBrush R0 s1 d)).
  destruct (ltb (distSq p v) _); [|reflexivity].
  unfold displacement, falloff. exact_ops.
  cbn [Vector3.x Vector3.y Vector3.z size strength direction].
  f_equal. ring.
Qed.

Lemma modifyVertex_down_is_negative_up (R0 s : R) p v :
  modifyVertex (mkBrush R0 s down) p v = modifyVertex (mkBrush R0 (- s) up) p v.
Proof.
  rewrite !modifyVertex_eq.
  change (brushSizeSq (mkBrush R0 (- s) up))
    with (brushSizeSq (mkBrush R0 s down)).
  destruct (ltb (distSq p v) _); [|reflexivity].
  unfold displacement, falloff. exact_ops.
  cbn [size strength direction]. f_equal. ring.
Qed.

(** Two calls agree when their brushes act alike on every vertex. *)
Lemma modifyTerrain_ext (cvn : BufferAttribute R -> list (Vector3.t R))
    (b1 b2 : BrushSettings R) (mesh : option (BufferGeometry R))
    (event : ThreeEvent R) :
  (forall p v, modifyVertex b1 p v = modifyVertex b2 p v) ->
  modifyTerrain cvn b1 mesh event = modifyTerrain cvn b2 mesh event.
Proof.
  intros Hv.
  assert (Hloop : forall p positions,
             modifyTerrain_loop b1 p positions = modifyTerrain_loop b2 p positions).
  { intros p positions. rewrite !modifyTerrain_loop_fmap.
    apply list_fmap_ext. intros i v _. apply Hv. }
  unfold modifyTerrain.
  destruct mesh as [geom|], (point event) as [p|]; try reflexivity.
  destruct (position geom) as [positions|]; [|reflexivity].
  cbv zeta. now rewrite Hloop.
Qed.

(** X6. Strokes accumulate without clamping: two brush applications with
    the same centre, size and direction and strengths [s1] and [s2] leave
    the mesh that one application of strength [s1 + s2] leaves. *)
Theorem strengths_add_up
    (cvn : BufferAttribute R -> list (Vector3.t R))
    (R0 s1 s2 : R) (d : BrushDirection)
    (mesh : option (BufferGeometry R)) (event : ThreeEvent R) :
  modifyTerrain cvn (mkBrush R0 s2 d)
    (modifyTerrain cvn (mkBrush R0 s1 d) mesh event) event
  = modifyTerrain cvn (mkBrush R0 (s1 + s2) d) mesh event.
Proof.
  unfold modifyTerrain.
  destruct mesh as [[[positions|] nrm]|], (point event) as [p0|];
    cbn [position]; try reflexivity.
  cbv zeta.
  assert (Hloop : modifyTerrain_loop (mkBrush R0 s2 d) p0
                    (modifyTerrain_loop (mkBrush R0 s1 d) p0 positions)
                  = modifyTerrain_loop (mkBrush R0 (s1 + s2) d) p0 positions).
  { rewrite !modifyTerrain_loop_fmap, <- list_fmap_compose.
    apply list_fmap_ext. intros i v _. apply modifyVertex_add_strength. }
  now rewrite Hloop.
Qed.

(** X7. Lowering is raising by the negated strength: direction [down] with
    strength [s] and direction [up] with strength [-s] give the same mesh. *)
Theorem down_is_negative_up
    (cvn : BufferAttribute R -> list (Vector3.t R)) (R0 s : R)
    (mesh : option (BufferGeometry R)) (event : ThreeEvent R) :
  modifyTerrain cvn (mkBrush R0 s down) mesh event
  = modifyTerrain cvn (mkBrush R0 (- s) up) mesh event.
Proof.
  apply modifyTerrain_ext. intros p v. apply modifyVertex_down_is_negative_up.
Qed.

(** *** Brushes that do nothing *)

(** X8. A brush of size [0], or of strength [0], changes no vertex. *)
Theorem degenerate_brush_is_noop
    (cvn : BufferAttribute R -> list (Vector3.t R)) brush
    (mesh : option (BufferGeometry R)) (event : ThreeEvent R) :
  size brush = 0 \/ strength brush = 0 ->
  positions_of (modifyTerrain cvn brush mesh event) = positions_of mesh.
Proof.
  intros Hdeg. rewrite positions_of_modifyTerrain.
  destruct (point event) as [p0|]; [|reflexivity].
  rewrite modifyTerrain_loop_fmap.
  rewrite <- (list_fmap_id (positions_of mesh)) at 2.
  apply list_fmap_ext. intros i v _.
  change (modifyVertex brush p0 v = v).
  destruct (Rlt_dec (distSq p0 v) (size brush * size brush)) as [Hin|Hout].
  - destruct Hdeg as [Hsize|Hstrength].
    + pose proof (distSq_nonneg p0 v). rewrite Hsize in Hin. lra.
    + rewrite modifyVertex_inside by assumption.
      unfold displacement. exact_ops. rewrite Hstrength.
      destruct v as [vx vy vz]. cbn [Vector3.x Vector3.y Vector3.z].
      f_equal. destruct (direction brush); ring.
  - apply modifyVertex_outside. lra.
Qed.

(** The reference grid spans [[-50, 50]] in [x] and in [z], and a mesh keeps
    that extent for life. *)
Lemma reachable_extent (cvn : BufferAttribute R -> list (Vector3.t R))
    (noise : R -> R -> R) (calls : list (BrushSettings R * ThreeEvent R)) v :
  v ∈ positions_of (strokes cvn (Some (geometry cvn noise)) calls) ->
  -50 <= Vector3.x v <= 50 /\ -50 <= Vector3.z v <= 50.
Proof.
  intros Hv. apply list_elem_of_lookup_1 in Hv as [i Hi].
  assert (Hpl : planar (positions_of
                          (strokes cvn (Some (geometry cvn noise)) calls)) !! i
                = Some (Vector3.x v, Vector3.z v))
    by (unfold planar; now rewrite list_lookup_fmap, Hi).
  unfold geometry in Hpl. rewrite planar_strokes, planar_generate in Hpl.
  unfold planar in Hpl. rewrite list_lookup_fmap in Hpl.
  destruct (PlaneGeometry _ _ _ _ !! i) as [g|] eqn:Hg; [|discriminate].
  cbn in Hpl. injection Hpl as Hx Hz.
  apply list_elem_of_lookup_2, PlaneGeometry_elem in Hg
    as (ix & iy & Hix & Hiy & ->).
  unfold gridVertex, TERRAIN_SIZE, TERRAIN_SEGMENTS in *. exact_ops.
  cbn [Vector3.x Vector3.z] in *.
  rewrite <- Hx, <- Hz. change (IZR (Z.of_nat 128)) with 128.
  assert (Hcol : 0 <= IZR (Z.of_nat ix) <= 128)
    by (split; [apply (IZR_le 0) | apply (IZR_le _ 128)]; lia).
  assert (Hrow : 0 <= IZR (Z.of_nat iy) <= 128)
    by (split; [apply (IZR_le 0) | apply (IZR_le _ 128)]; lia).
  lra.
Qed.

(** X9. A brush that misses the terrain is the identity: on a mesh generated
    by [geometry] and sculpted by any sequence of calls, a brush whose
    centre lies at least its size beyond the extent [[-50, 50]] in [x] or
    in [z] returns the mesh unchanged, normals included. *)
Theorem off_terrain_brush_is_identity
    (cvn : BufferAttribute R -> list (Vector3.t R))
    (noise : R -> R -> R) (calls : list (BrushSettings R * ThreeEvent R))
    brush p :
  0 <= size brush ->
  50 + size brush <= Rabs (Vector3.x p) \/ 50 + size brush <= Rabs (Vector3.z p) ->
  modifyTerrain cvn brush (strokes cvn (Some (geometry cvn noise)) calls)
    (mkEvent (Some p))
  = strokes cvn (Some (geometry cvn noise)) calls.
Proof.
  intros HR Hfar.
  pose proof (reachable_extent cvn noise calls) as Hext.
  unfold geometry, generate in *. cbv zeta in *.
  destruct (strokes_shape cvn calls
              (foldl (geometry_body noise)
                 (PlaneGeometry TERRAIN_SIZE TERRAIN_SIZE
                    TERRAIN_SEGMENTS TERRAIN_SEGMENTS)
                 (seq 0 (length (PlaneGeometry TERRAIN_SIZE TERRAIN_SIZE
                                   TERRAIN_SEGMENTS TERRAIN_SEGMENTS)))))
    as [positions Hshape].
  rewrite Hshape in *. unfold positions_of in Hext. cbn in Hext.
  unfold modifyTerrain. cbn [point position].
  assert (Hloop : modifyTerrain_loop brush p positions = positions).
  { rewrite modifyTerrain_loop_fmap.
    rewrite <- (list_fmap_id positions) at 2.
    apply list_fmap_ext. intros i v Hi.
    change (modifyVertex brush p v = v).
    apply modifyVertex_outside.
    apply list_elem_of_lookup_2, Hext in Hi as [[Hx0 Hx1] [Hz0 Hz1]].
    unfold distSq. exact_ops.
    pose proof (Rle_0_sqr (Vector3.x v - Vector3.x p)) as Hsx.
    pose proof (Rle_0_sqr (Vector3.z v - Vector3.z p)) as Hsz.
    unfold Rsqr in Hsx, Hsz.
    destruct Hfar as [Hfar|Hfar]; unfold Rabs in Hfar;
      destruct (Rcase_abs _) in Hfar; nra. }
  now rewrite Hloop.
Qed.

(** *** Generation *)

(** X10. Relief of a fresh terrain: when the noise function takes its
    values in [[-1, 1]], every height of the generated mesh lies in
    [[-5, 5]]. *)
Theorem generated_heights_bounded
    (cvn : BufferAttribute R -> list (Vector3.t R))
    (size : R) (segments : nat) (noise : R -> R -> R) :
  (forall u w, -1 <= noise u w <= 1) ->
  Forall (fun h => -5 <= h <= 5)
         (heights (positions_of (Some (generate cvn size segments noise)))).
Proof.
  intros Hnoise. rewrite positions_of_generate. unfold heights.
  rewrite <- list_fmap_compose. apply Forall_fmap, Forall_forall.
  intros v _. simpl. exact_ops.
  pose proof (Hnoise (Vector3.x v / 40) (Vector3.z v / 40)). lra.
Qed.

(** *** Normals *)

Lemma planar_lookup (positions grid : BufferAttribute R) (i : nat) v :
  planar positions = planar grid -> positions !! i = Some v ->
  exists g,
    grid !! i = Some g /\ Vector3.x v = Vector3.x g /\ Vector3.z v = Vector3.z g.
Proof.
  intros Hpl Hi.
  assert (H : planar positions !! i = Some (Vector3.x v, Vector3.z v))
    by (unfold planar; now rewrite list_lookup_fmap, Hi).
  rewrite Hpl in H. unfold planar in H. rewrite list_lookup_fmap in H.
  destruct (grid !! i) as [g|]; [|discriminate].
  cbn in H. injection H as Hx Hz. exists g. auto.
Qed.

(** Where the vertex in column [ix] of row [iy] lies, whatever its height. *)
Lemma reachable_vertex (size : R) (n : nat) (positions : BufferAttribute R)
    (ix iy : nat) v :
  planar positions = planar (PlaneGeometry size size n n) ->
  (ix <= n)%nat -> (iy <= n)%nat ->
  positions !! (iy * S n + ix)%nat = Some v ->
  Vector3.x v = IZR (Z.of_nat ix) * (size / IZR (Z.of_nat n)) - size / 2 /\
  Vector3.z v = IZR (Z.of_nat iy) * (size / IZR (Z.of_nat n)) - size / 2.
Proof.
  intros Hpl Hix Hiy Hi.
  destruct (planar_lookup _ _ _ _ Hpl Hi) as (g & Hg & -> & ->).
  rewrite PlaneGeometry_lookup in Hg by assumption.
  injection Hg as <-. split; reflexivity.
Qed.

(** Every triangle of the grid has a face normal whose [y] is the area of a
    cell: it points up. *)
Lemma faceNormal_y (size : R) (n : nat) (positions : BufferAttribute R)
    (cx cy : nat) (face : nat * nat * nat) (fn : Vector3.t R) :
  planar positions = planar (PlaneGeometry size size n n) ->
  (cx < n)%nat -> (cy < n)%nat -> face ∈ cellFaces n cx cy ->
  faceNormal positions face = Some fn ->
  Vector3.y fn = size / IZR (Z.of_nat n) * (size / IZR (Z.of_nat n)).
Proof.
  intros Hpl Hcx Hcy Hface Hfn.
  unfold cellFaces in Hface. cbv zeta in Hface.
  assert (Hcorner : forall ix iy v, (ix <= n)%nat -> (iy <= n)%nat ->
             positions !! (iy * S n + ix)%nat = Some v ->
             Vector3.x v = IZR (Z.of_nat ix) * (size / IZR (Z.of_nat n)) - size / 2 /\
             Vector3.z v = IZR (Z.of_nat iy) * (size / IZR (Z.of_nat n)) - size / 2)
    by (intros ix iy v; now apply reachable_vertex).
  assert (Hsx : IZR (Z.of_nat (S cx)) = IZR (Z.of_nat cx) + 1)
    by (rewrite Nat2Z.inj_succ; apply succ_IZR).
  assert (Hsy : IZR (Z.of_nat (S cy)) = IZR (Z.of_nat cy) + 1)
    by (rewrite Nat2Z.inj_succ; apply succ_IZR).
  unfold faceNormal in Hfn.
  apply elem_of_cons in Hface as [->|Hface];
    [|apply elem_of_cons in Hface as [->|Hface];
      [|now apply elem_of_nil in Hface]];
    cbn [fst snd] in Hfn;
    destruct (positions !! _) as [pA|] eqn:HA in Hfn; try discriminate;
    destruct (positions !! _) as [pB|] eqn:HB in Hfn; try discriminate;
    destruct (positions !! _) as [pC|] eqn:HC in Hfn; try discriminate;
    cbn [mbind option_bind] in Hfn; injection Hfn as <-;
    apply Hcorner in HA as [HAx HAz]; try lia;
    apply Hcorner in HB as [HBx HBz]; try lia;
    apply Hcorner in HC as [HCx HCz]; try lia;
    unfold Vector3_cross, Vector3_sub; cbn [Vector3.x Vector3.y Vector3.z];
    exact_ops; rewrite HAx, HAz, HBx, HBz, HCx, HCz, ?Hsx, ?Hsy; ring.
Qed.

Lemma sum_faceNormals_y (q : R) (normals : list (Vector3.t R)) (acc : Vector3.t R) :
  Forall (fun fn => Vector3.y fn = q) normals ->
  Vector3.y (foldl (fun n cb => setXYZ (Vector3_add n cb)) acc normals)
  = Vector3.y acc + INR (length normals) * q.
Proof.
  intros Hall. revert acc.
  induction Hall as [|fn normals Hfn _ IH]; intros acc.
  - simpl. ring.
  - cbn [foldl]. rewrite IH.
    unfold setXYZ, Vector3_add. cbn [Vector3.y]. exact_ops.
    rewrite Hfn. cbn [length]. rewrite S_INR. ring.
Qed.

(** A vector that points up is normalized to unit length. *)
Lemma normalize_unit (v : Vector3.t R) :
  0 < Vector3.y v -> Vector3_length (setXYZ (Vector3_normalize v)) = 1.
Proof.
  intros Hy. destruct v as [a b c]. cbn [Vector3.y] in Hy.
  unfold Vector3_normalize, Vector3_length, setXYZ.
  cbn [Vector3.x Vector3.y Vector3.z]. exact_ops.
  set (S := a * a + b * b + c * c).
  assert (HS : 0 < S).
  { unfold S. pose proof (Rle_0_sqr a). pose proof (Rle_0_sqr c).
    unfold Rsqr in *. nra. }
  pose proof (sqrt_lt_R0 S HS) as Hr.
  pose proof (sqrt_sqrt S (Rlt_le _ _ HS)) as Hrr.
  set (r := sqrt S) in *.
  replace (ltb 0 r) with true by (symmetry; now apply Exact_ltb_true).
  replace (a * (1 / r) * (a * (1 / r)) + b * (1 / r) * (b * (1 / r))
           + c * (1 / r) * (c * (1 / r)))
    with (S / (r * r)) by (unfold S; field; lra).
  rewrite Hrr. replace (S / S) with 1 by (field; lra). apply sqrt_1.
Qed.

(** Every vertex of the grid is a corner of some triangle. *)
Lemma incident_face_exists (n i : nat) :
  (0 < n)%nat -> (i < S n * S n)%nat ->
  exists face : nat * nat * nat,
    face ∈ faces n /\
    (face.1.1 = i \/ face.1.2 = i \/ face.2 = i) /\
    (face.1.1 < S n * S n /\ face.1.2 < S n * S n /\ face.2 < S n * S n)%nat.
Proof.
  intros Hn Hi.
  pose proof (Nat.div_mod_eq i (S n)) as Hdm.
  pose proof (Nat.mod_upper_bound i (S n) ltac:(lia)) as Hix.
  assert (Hiy : (i / S n < S n)%nat)
    by (apply Nat.Div0.div_lt_upper_bound; lia).
  set (ix := (i mod S n)%nat) in *. set (iy := (i / S n)%nat) in *.
  assert (Hcell : forall cx cy face, (cx < n)%nat -> (cy < n)%nat ->
             face ∈ cellFaces n cx cy -> face ∈ faces n).
  { intros cx cy face Hcx Hcy Hface. unfold faces.
    apply list_elem_of_bind. exists cy. split; [|apply elem_of_seq; lia].
    apply list_elem_of_bind. exists cx. split; [assumption|].
    apply elem_of_seq. lia. }
  assert (Hn1 : S (n - 1) = n) by lia.
  destruct (lt_dec ix n) as [Hx|Hx], (lt_dec iy n) as [Hy|Hy].
  - exists (iy * S n + ix, S iy * S n + ix, iy * S n + S ix)%nat.
    split; [apply (Hcell ix iy); [lia|lia|left]|].
    cbn [fst snd]. split; [left; lia|nia].
  - exists ((n - 1) * S n + ix, S (n - 1) * S n + ix, (n - 1) * S n + S ix)%nat.
    split; [apply (Hcell ix (n - 1)%nat); [lia|lia|left]|].
    cbn [fst snd]. rewrite Hn1.
    assert (iy = n) by lia. subst iy. split; [right; left; lia|nia].
  - exists (iy * S n + (n - 1), S iy * S n + (n - 1), iy * S n + S (n - 1))%nat.
    split; [apply (Hcell (n - 1)%nat iy); [lia|lia|left]|].
    cbn [fst snd]. rewrite Hn1.
    assert (ix = n) by lia. split; [right; right; lia|nia].
  - exists (S (n - 1) * S n + (n - 1), S (n - 1) * S n + S (n - 1),
            (n - 1) * S n + S (n - 1))%nat.
    split; [apply (Hcell (n - 1) (n - 1))%nat; [lia|lia|right; left]|].
    cbn [fst snd]. rewrite !Hn1.
    assert (ix = n) by lia. assert (iy = n) by lia.
    split; [right; left; lia|nia].
Qed.

Lemma vertexNormal_unit (size : R) (n : nat) (positions : BufferAttribute R)
    (i : nat) :
  0 < size -> (0 < n)%nat ->
  planar positions = planar (PlaneGeometry size size n n) ->
  (i < length positions)%nat ->
  Vector3_length (vertexNormal n positions i) = 1.
Proof.
  intros Hsize Hn Hpl Hi.
  assert (Hlen : length positions = (S n * S n)%nat).
  { rewrite <- (length_fmap (fun v => (Vector3.x v, Vector3.z v))).
    change (length (planar positions) = (S n * S n)%nat).
    rewrite Hpl. unfold planar. rewrite length_fmap. apply length_PlaneGeometry. }
  assert (Hw : 0 < size / IZR (Z.of_nat n)).
  { apply Rdiv_lt_0_compat; [assumption|]. apply (IZR_lt 0). lia. }
  unfold vertexNormal. cbv zeta. apply normalize_unit.
  set (normals := omap (faceNormal positions) _).
  assert (Hall : Forall (fun fn => Vector3.y fn
                           = size / IZR (Z.of_nat n) * (size / IZR (Z.of_nat n)))
                        normals).
  { apply Forall_forall. intros fn Hfn. unfold normals in Hfn.
    apply list_elem_of_omap in Hfn as (face & Hface & Hfn).
    apply list_elem_of_filter in Hface as [_ Hface]. unfold faces in Hface.
    apply list_elem_of_bind in Hface as (cy & Hface & Hcy).
    apply list_elem_of_bind in Hface as (cx & Hface & Hcx).
    apply elem_of_seq in Hcx, Hcy.
    apply (faceNormal_y size n positions cx cy face fn); (assumption || lia). }
  rewrite (sum_faceNormals_y _ _ _ Hall). cbn [Vector3.y]. exact_ops.
  assert (Hsome : exists fn, fn ∈ normals).
  { rewrite Hlen in Hi.
    destruct (incident_face_exists n i Hn Hi) as (face & Hface & Hinc & HA & HB & HC).
    rewrite <- Hlen in HA, HB, HC.
    apply lookup_lt_is_Some in HA as [pA HA], HB as [pB HB], HC as [pC HC].
    eexists. unfold normals. apply list_elem_of_omap. exists face. split.
    - apply list_elem_of_filter. split; assumption.
    - unfold faceNormal. rewrite HA, HB, HC. reflexivity. }
  destruct Hsome as [fn Hfn].
  destruct normals as [|fn' normals]; [now apply elem_of_nil in Hfn|].
  cbn [length]. rewrite S_INR. pose proof (pos_INR (length normals)). nra.
Qed.

(** C6 (amended, over exact arithmetic). Normals: after generation on a
    grid of positive size with at least one segment, and after any sequence
    of brush applications, the normals of the mesh are those recomputed from
    its current positions, one for each vertex, and every one of them has
    unit length. *)
Theorem normals_unit_length (size : R) (segments : nat) (noise : R -> R -> R)
    (calls : list (BrushSettings R * ThreeEvent R)) :
  0 < size -> (0 < segments)%nat ->
  exists positions,
    strokes (computeVertexNormals segments)
      (Some (generate (computeVertexNormals segments) size segments noise)) calls
    = Some (mkGeometry (Some positions) (computeVertexNormals segments positions)) /\
    length (computeVertexNormals segments positions) = length positions /\
    Forall (fun n => Vector3_length n = 1)
           (computeVertexNormals segments positions).
Proof.
  intros Hsize Hsegments.
  pose proof (planar_strokes (computeVertexNormals segments) calls
                (Some (generate (computeVertexNormals segments) size segments noise)))
    as Hpl.
  rewrite planar_generate in Hpl.
  unfold generate in *. cbv zeta in *.
  destruct (strokes_shape (computeVertexNormals segments) calls
              (foldl (geometry_body noise)
                 (PlaneGeometry size size segments segments)
                 (seq 0 (length (PlaneGeometry size size segments segments)))))
    as [positions Hshape].
  rewrite Hshape in *. unfold positions_of in Hpl. cbn in Hpl.
  exists positions. split; [reflexivity|]. split.
  - unfold computeVertexNormals. now rewrite length_fmap, length_seq.
  - unfold computeVertexNormals. apply Forall_fmap, Forall_forall.
    intros i Hi. apply elem_of_seq in Hi. cbn.
    apply (vertexNormal_unit size segments); (assumption || lia).
Qed.

End ExactFacts.

(** ** Binary64 *)

Section Binary64Facts.
Variable cos64 : spec_float -> spec_float.

Local Abbreviation JS64 := (Binary64 cos64).

Implicit Types (a b c : spec_float).

Lemma sub_nonfinite a b :
  isFinite b = false -> isFinite (SFsub prec64 emax64 a b) = false.
Proof.
  destruct b as [sb|sb| |sb mb eb]; try discriminate; intros _.
  - destruct a as [sa|sa| |sa ma ea]; try reflexivity.
    destruct sa, sb; reflexivity.
  - destruct a; reflexivity.
Qed.

Lemma square_nonfinite a :
  isFinite a = false -> posInfOrNaN (SFmul prec64 emax64 a a) = true.
Proof.
  destruct a as [sa|sa| |sa ma ea]; try discriminate; intros _.
  - destruct sa; reflexivity.
  - reflexivity.
Qed.

Lemma add_posInfOrNaN_l a b :
  posInfOrNaN a = true -> posInfOrNaN (SFadd prec64 emax64 a b) = true.
Proof.
  destruct a as [sa|[|]| |sa ma ea]; try discriminate; intros _.
  - destruct b as [sb|[|]| |sb mb eb]; reflexivity.
  - destruct b; reflexivity.
Qed.

Lemma add_posInfOrNaN_r a b :
  posInfOrNaN b = true -> posInfOrNaN (SFadd prec64 emax64 a b) = true.
Proof.
  destruct b as [sb|[|]| |sb mb eb]; try discriminate; intros _.
  - destruct a as [sa|[|]| |sa ma ea]; reflexivity.
  - destruct a; reflexivity.
Qed.

Lemma ltb_posInfOrNaN a c : posInfOrNaN a = true -> SFltb a c = false.
Proof.
  destruct a as [sa|[|]| |sa ma ea]; try discriminate; intros _.
  - destruct c as [sc|[|]| |sc mc ec]; reflexivity.
  - reflexivity.
Qed.

(** No vertex is within the footprint of a brush at a non-finite point. *)
Lemma nonfinite_point_outside (brush : BrushSettings spec_float)
    (p v : Vector3.t spec_float) :
  isFinite (Vector3.x p) = false \/ isFinite (Vector3.z p) = false ->
  ltb (JSNumber := JS64) (distSq (JS := JS64) p v) (brushSizeSq (JS := JS64) brush)
  = false.
Proof.
  intros Hp. apply ltb_posInfOrNaN. unfold distSq. cbn [add sub mul Binary64].
  destruct Hp as [Hx|Hz].
  - apply add_posInfOrNaN_l, square_nonfinite, sub_nonfinite, Hx.
  - apply add_posInfOrNaN_r, square_nonfinite, sub_nonfinite, Hz.
Qed.

(** C7. A brush application whose interaction point has a NaN or infinite
    [x] or [z] leaves the position buffer as it was: no height changes and
    nothing is written, so heights that were finite stay finite. *)
Theorem nonfinite_point_is_noop
    (cvn : BufferAttribute spec_float -> list (Vector3.t spec_float))
    (brush : BrushSettings spec_float) (p : Vector3.t spec_float)
    (mesh : option (BufferGeometry spec_float)) :
  isFinite (Vector3.x p) = false \/ isFinite (Vector3.z p) = false ->
  positions_of (modifyTerrain (JS := JS64) cvn brush mesh (mkEvent (Some p)))
  = positions_of mesh /\
  (Forall (fun h => isFinite h = true) (heights (positions_of mesh)) ->
   Forall (fun h => isFinite h = true)
     (heights (positions_of
                 (modifyTerrain (JS := JS64) cvn brush mesh (mkEvent (Some p)))))).
Proof.
  intros Hp.
  assert (Hsame : positions_of
                    (modifyTerrain (JS := JS64) cvn brush mesh (mkEvent (Some p)))
                  = positions_of mesh).
  { rewrite positions_of_modifyTerrain. cbn [point].
    rewrite modifyTerrain_loop_fmap.
    rewrite <- (list_fmap_id (positions_of mesh)) at 2.
    apply list_fmap_ext. intros i v _.
    rewrite modifyVertex_eq. now rewrite nonfinite_point_outside. }
  split; [exact Hsame | now rewrite Hsame].
Qed.

(** *** Brush settings that are not numbers *)

Lemma ltb_nan_r a : SFltb a S754_nan = false.
Proof. destruct a; reflexivity. Qed.

(** X11. A brush whose size is NaN changes no vertex. *)
Theorem nan_size_is_noop
    (cvn : BufferAttribute spec_float -> list (Vector3.t spec_float))
    (s : spec_float) (d : BrushDirection)
    (mesh : option (BufferGeometry spec_float)) (event : ThreeEvent spec_float) :
  positions_of (modifyTerrain (JS := JS64) cvn (mkBrush S754_nan s d) mesh event)
  = positions_of mesh.
Proof.
  rewrite positions_of_modifyTerrain.
  destruct (point event) as [p|]; [|reflexivity].
  rewrite modifyTerrain_loop_fmap.
  rewrite <- (list_fmap_id (positions_of mesh)) at 2.
  apply list_fmap_ext. intros i v _. rewrite modifyVertex_eq.
  change (brushSizeSq (JS := JS64) (mkBrush S754_nan s d)) with S754_nan.
  change (ltb (JSNumber := JS64) (distSq (JS := JS64) p v) S754_nan)
    with (SFltb (distSq (JS := JS64) p v) S754_nan).
  now rewrite ltb_nan_r.
Qed.

Lemma add_nan_r a : SFadd prec64 emax64 a S754_nan = S754_nan.
Proof. destruct a; reflexivity. Qed.

(** X12. A brush whose strength is NaN is not refused: every vertex that
    passes the footprint test gets the height NaN, whatever [Math.cos]
    returns. *)
Theorem nan_strength_poisons (R0 : spec_float) (d : BrushDirection)
    (p : Vector3.t spec_float) (positions : BufferAttribute spec_float)
    (i : nat) (v : Vector3.t spec_float) :
  positions !! i = Some v ->
  ltb (JSNumber := JS64) (distSq (JS := JS64) p v)
      (brushSizeSq (JS := JS64) (mkBrush R0 S754_nan d)) = true ->
  modifyTerrain_loop (JS := JS64) (mkBrush R0 S754_nan d) p positions !! i
  = Some (Vector3.make (Vector3.x v) S754_nan (Vector3.z v)).
Proof.
  intros Hi Hin.
  rewrite modifyTerrain_loop_fmap, list_lookup_fmap, Hi.
  cbn [fmap option_fmap option_map]. rewrite modifyVertex_eq, Hin.
  unfold displacement. cbn [strength mul add Binary64 SFmul].
  now rewrite add_nan_r.
Qed.

(** *** Sign symmetry of the operations *)

Lemma binary_round_aux_negb (s : bool) (m e : Z) (l : location) :
  binary_round_aux prec64 emax64 (negb s) m e l
  = SFopp (binary_round_aux prec64 emax64 s m e l).
Proof.
  unfold binary_round_aux.
  destruct (shr_fexp prec64 emax64 m e l) as [mrs' e'].
  destruct (shr_fexp prec64 emax64 _ e' loc_Exact) as [mrs'' e''].
  destruct (shr_m mrs''); [reflexivity| |reflexivity].
  destruct (Z.leb e'' _); reflexivity.
Qed.

Lemma SFdiv_opp_r a b :
  SFdiv prec64 emax64 a (SFopp b) = SFopp (SFdiv prec64 emax64 a b).
Proof.
  destruct a as [sa|sa| |sa ma ea], b as [sb|sb| |sb mb eb];
    try reflexivity; cbn [SFopp SFdiv];
    try (destruct sa, sb; reflexivity).
  destruct (SFdiv_core_binary prec64 emax64 (Z.pos ma) ea (Z.pos mb) eb)
    as [[mz ez] lz].
  replace (xorb sa (negb sb)) with (negb (xorb sa sb))
    by (destruct sa, sb; reflexivity).
  apply binary_round_aux_negb.
Qed.

Lemma SFmul_opp_l a b :
  SFmul prec64 emax64 (SFopp a) b = SFopp (SFmul prec64 emax64 a b).
Proof.
  destruct a as [sa|sa| |sa ma ea], b as [sb|sb| |sb mb eb];
    try reflexivity; cbn [SFopp SFmul];
    try (destruct sa, sb; reflexivity).
  replace (xorb (negb sa) sb) with (negb (xorb sa sb))
    by (destruct sa, sb; reflexivity).
  apply binary_round_aux_negb.
Qed.

Lemma SFmul_opp_opp a :
  SFmul prec64 emax64 (SFopp a) (SFopp a) = SFmul prec64 emax64 a a.
Proof.
  destruct a as [sa|sa| |sa ma ea]; try reflexivity; cbn [SFopp SFmul];
    destruct sa; reflexivity.
Qed.

Section EvenCosine.
Hypothesis cos64_even : forall a, cos64 (SFopp a) = cos64 a.

(** In binary64 too the brush of size [-R] acts as the brush of size [R],
    bit for bit, when [Math.cos] is even. *)
Lemma negative_size_same_result_binary64
    (cvn : BufferAttribute spec_float -> list (Vector3.t spec_float))
    (R0 s : spec_float) (d : BrushDirection)
    (mesh : option (BufferGeometry spec_float)) (event : ThreeEvent spec_float) :
  modifyTerrain (JS := JS64) cvn (mkBrush (SFopp R0) s d) mesh event
  = modifyTerrain (JS := JS64) cvn (mkBrush R0 s d) mesh event.
Proof.
  assert (Hloop : forall p positions,
             modifyTerrain_loop (JS := JS64) (mkBrush (SFopp R0) s d) p positions
             = modifyTerrain_loop (JS := JS64) (mkBrush R0 s d) p positions).
  { intros p positions. rewrite !modifyTerrain_loop_fmap.
    apply list_fmap_ext. intros i v _. rewrite !modifyVertex_eq.
    unfold brushSizeSq, displacement, falloff.
    cbn [size strength direction mul div Math_cos Binary64].
    now rewrite SFmul_opp_opp, SFdiv_opp_r, SFmul_opp_l, cos64_even. }
  unfold modifyTerrain.
  destruct mesh as [geom|], (point event) as [p|]; try reflexivity.
  destruct (position geom) as [positions|]; [|reflexivity].
  cbv zeta. now rewrite Hloop.
Qed.

End EvenCosine.

(** *** A size whose square underflows *)

(** Not a negative number: what a sum of squares is. *)
Lemma binary_round_aux_notNegative (m e : Z) (l : location) :
  SFltb (binary_round_aux prec64 emax64 false m e l) (S754_zero false) = false.
Proof.
  unfold binary_round_aux.
  destruct (shr_fexp prec64 emax64 m e l) as [mrs' e'].
  destruct (shr_fexp prec64 emax64 _ e' loc_Exact) as [mrs'' e''].
  destruct (shr_m mrs''); [reflexivity| |reflexivity].
  destruct (Z.leb e'' _); reflexivity.
Qed.

Lemma square_notNegative a :
  SFltb (SFmul prec64 emax64 a a) (S754_zero false) = false.
Proof.
  destruct a as [sa|sa| |sa ma ea]; cbn [SFmul].
  - destruct sa; reflexivity.
  - destruct sa; reflexivity.
  - reflexivity.
  - replace (xorb sa sa) with false by (destruct sa; reflexivity).
    apply binary_round_aux_notNegative.
Qed.

Lemma binary_round_notNegative (m : positive) (e : Z) :
  SFltb (binary_round prec64 emax64 false m e) (S754_zero false) = false.
Proof.
  unfold binary_round.
  destruct (shl_align m e _) as [mz ez].
  apply binary_round_aux_notNegative.
Qed.

Lemma add_notNegative a b :
  SFltb a (S754_zero false) = false -> SFltb b (S754_zero false) = false ->
  SFltb (SFadd prec64 emax64 a b) (S754_zero false) = false.
Proof.
  destruct a as [sa|[|]| |[|] ma ea]; try discriminate;
    destruct b as [sb|[|]| |[|] mb eb]; try discriminate; intros _ _;
    try reflexivity.
  - destruct sa, sb; reflexivity.
  - cbn [SFadd cond_Zopp Z.add binary_normalize].
    apply binary_round_notNegative.
Qed.

Lemma distSq_notNegative (p v : Vector3.t spec_float) :
  SFltb (distSq (JS := JS64) p v) (S754_zero false) = false.
Proof.
  unfold distSq. cbn [add sub mul Binary64].
  apply add_notNegative; apply square_notNegative.
Qed.

(** A brush whose [size * size] is [+0] changes no vertex, whatever its
    size and strength. *)
Lemma underflowing_size_is_noop
    (cvn : BufferAttribute spec_float -> list (Vector3.t spec_float))
    (brush : BrushSettings spec_float)
    (mesh : option (BufferGeometry spec_float)) (event : ThreeEvent spec_float) :
  brushSizeSq (JS := JS64) brush = S754_zero false ->
  positions_of (modifyTerrain (JS := JS64) cvn brush mesh event)
  = positions_of mesh.
Proof.
  intros Hsq. rewrite positions_of_modifyTerrain.
  destruct (point event) as [p|]; [|reflexivity].
  rewrite modifyTerrain_loop_fmap.
  rewrite <- (list_fmap_id (positions_of mesh)) at 2.
  apply list_fmap_ext. intros i v _. rewrite modifyVertex_eq, Hsq.
  change (ltb (JSNumber := JS64) (distSq (JS := JS64) p v) (S754_zero false))
    with (SFltb (distSq (JS := JS64) p v) (S754_zero false)).
  now rewrite distSq_notNegative.
Qed.

(** *** The terrain of height [0.5] *)

(** The vertex in column [ix] of row [iy] of the reference grid. *)
Local Abbreviation referenceVertex ix iy :=
  (gridVertex (JS := JS64) (TERRAIN_SIZE (JS := JS64)) (TERRAIN_SIZE (JS := JS64))
     TERRAIN_SEGMENTS TERRAIN_SEGMENTS ix iy).

(** The [x] and [z] of the reference grid are singles: the [Float32Array]
    of the geometry holds them as they are. *)
Lemma referenceGrid_single (v : Vector3.t spec_float) :
  v ∈ PlaneGeometry (JS := JS64) (TERRAIN_SIZE (JS := JS64))
        (TERRAIN_SIZE (JS := JS64)) TERRAIN_SEGMENTS TERRAIN_SEGMENTS ->
  fround64 (Vector3.x v) = Vector3.x v /\ fround64 (Vector3.z v) = Vector3.z v.
Proof.
  intros Hv. apply PlaneGeometry_elem in Hv as (ix & iy & Hix & Hiy & ->).
  assert (Hcols : (fun k => fround64 (Vector3.x (referenceVertex k 0))) <$> seq 0 129
                  = (fun k => Vector3.x (referenceVertex k 0)) <$> seq 0 129)
    by (vm_compute; reflexivity).
  assert (Hrows : (fun k => fround64 (Vector3.z (referenceVertex 0 k))) <$> seq 0 129
                  = (fun k => Vector3.z (referenceVertex 0 k)) <$> seq 0 129)
    by (vm_compute; reflexivity).
  unfold TERRAIN_SEGMENTS in Hix, Hiy. split.
  - apply (f_equal (fun l => l !! ix)) in Hcols.
    rewrite !list_lookup_fmap, lookup_seq_lt in Hcols by lia.
    now injection Hcols.
  - apply (f_equal (fun l => l !! iy)) in Hrows.
    rewrite !list_lookup_fmap, lookup_seq_lt in Hrows by lia.
    now injection Hrows.
Qed.

Lemma drift_generateVertex (ix iy : nat) :
  generateVertex (JS := JS64) driftNoise (referenceVertex ix iy)
  = Vector3.make (Vector3.x (referenceVertex ix iy)) (decimal64 1 2)
                 (Vector3.z (referenceVertex ix iy)).
Proof.
  unfold generateVertex, driftNoise. f_equal.
Qed.

Lemma drift_terrain_lookup
    (cvn : BufferAttribute spec_float -> list (Vector3.t spec_float))
    (ix iy : nat) :
  ix <= 128 -> iy <= 128 ->
  positions_of (Some (geometry (JS := JS64) cvn driftNoise)) !! (iy * 129 + ix)
  = Some (generateVertex (JS := JS64) driftNoise (referenceVertex ix iy)).
Proof.
  intros Hix Hiy. unfold geometry.
  rewrite positions_of_generate, list_lookup_fmap.
  unfold TERRAIN_SEGMENTS. now rewrite PlaneGeometry_lookup by lia.
Qed.

Lemma drift_terrain_centre
    (cvn : BufferAttribute spec_float -> list (Vector3.t spec_float)) :
  positions_of (Some (geometry (JS := JS64) cvn driftNoise)) !! (64 * 129 + 64)
  = Some (Vector3.make (S754_zero false) (decimal64 1 2) (S754_zero false)).
Proof.
  rewrite drift_terrain_lookup by lia. rewrite drift_generateVertex.
  vm_compute. reflexivity.
Qed.

(** *** Normals of a buffer with a height that is not finite *)

Lemma fround64_nonfinite a : isFinite a = false -> fround64 a = a.
Proof. destruct a; try discriminate; reflexivity. Qed.

Lemma add_nonfinite_l a b :
  isFinite a = false -> isFinite (SFadd prec64 emax64 a b) = false.
Proof.
  destruct a as [sa|sa| |sa ma ea]; try discriminate; intros _.
  - destruct b as [sb|sb| |sb mb eb]; try reflexivity.
    destruct sa, sb; reflexivity.
  - reflexivity.
Qed.

Lemma add_nonfinite_r a b :
  isFinite b = false -> isFinite (SFadd prec64 emax64 a b) = false.
Proof.
  destruct b as [sb|sb| |sb mb eb]; try discriminate; intros _.
  - destruct a as [sa|sa| |sa ma ea]; try reflexivity.
    destruct sa, sb; reflexivity.
  - destruct a; reflexivity.
Qed.

Lemma mul_nonfinite_l a b :
  isFinite a = false -> isFinite (SFmul prec64 emax64 a b) = false.
Proof.
  destruct a as [sa|sa| |sa ma ea]; try discriminate; intros _.
  - destruct b; reflexivity.
  - reflexivity.
Qed.

(** Once a face normal has an [x] that is not finite, so has the sum. *)
Lemma sum_faceNormals_nonfinite (normals : list (Vector3.t spec_float))
    (acc : Vector3.t spec_float) :
  isFinite (Vector3.x acc) = false
  \/ (exists fn, fn ∈ normals /\ isFinite (Vector3.x fn) = false) ->
  isFinite (Vector3.x (foldl (fun n cb => setXYZ (JS := JS64)
                                            (Vector3_add (JS := JS64) n cb))
                             acc normals)) = false.
Proof.
  revert acc. induction normals as [|fn normals IH]; intros acc Hbad.
  - destruct Hbad as [Hacc|(fn & Hfn & _)]; [assumption|].
    now apply elem_of_nil in Hfn.
  - cbn [foldl]. apply IH.
    assert (Hstep : forall n cb,
               isFinite (SFadd prec64 emax64 (Vector3.x n) (Vector3.x cb)) = false ->
               isFinite (Vector3.x (setXYZ (JS := JS64)
                                      (Vector3_add (JS := JS64) n cb))) = false).
    { intros n cb Hsum. unfold setXYZ, Vector3_add.
      cbn [Vector3.x add Math_fround Binary64].
      now rewrite fround64_nonfinite. }
    destruct Hbad as [Hacc|(fn' & Hfn & Hx)].
    + left. now apply Hstep, add_nonfinite_l.
    + apply elem_of_cons in Hfn as [->|Hfn].
      * left. now apply Hstep, add_nonfinite_r.
      * right. now exists fn'.
Qed.

Lemma normalize_nonfinite (v : Vector3.t spec_float) :
  isFinite (Vector3.x v) = false ->
  isFinite (Vector3.x (setXYZ (JS := JS64) (Vector3_normalize (JS := JS64) v)))
  = false.
Proof.
  intros Hx. unfold setXYZ, Vector3_normalize.
  cbn [Vector3.x mul Math_fround Binary64].
  rewrite fround64_nonfinite; now apply mul_nonfinite_l.
Qed.

(** *** Rounding in the two writes of a raise and a lower *)

Section CosineAtZero.
Hypothesis cos64_zero :
  cos64 (S754_zero false) = S754_finite false 4503599627370496 (-52).

(** At its centre a brush of size [5] or [0.5] has weight [1]. *)
Lemma centre_falloff (brush : BrushSettings spec_float) :
  size brush = binary_normalize prec64 emax64 5 0 false
  \/ size brush = decimal64 1 2 ->
  falloff (JS := JS64) brush (S754_zero false)
  = S754_finite false 4503599627370496 (-52).
Proof.
  intros Hsize.
  assert (Harg : mul (JSNumber := JS64)
                   (div (JSNumber := JS64)
                      (Math_sqrt (JSNumber := JS64) (S754_zero false))
                      (size brush))
                   (Math_PI (JSNumber := JS64))
                 = S754_zero false)
    by (destruct Hsize as [-> | ->]; vm_compute; reflexivity).
  unfold falloff. rewrite Harg.
  change (Math_cos (JSNumber := JS64) (S754_zero false))
    with (cos64 (S754_zero false)).
  rewrite cos64_zero. vm_compute. reflexivity.
Qed.

Lemma drift_displacement (d : BrushDirection) :
  displacement (JS := JS64) (driftBrush d) (S754_zero false)
  = match d with
    | up => decimal64 9 10
    | down => SFopp (decimal64 9 10)
    end.
Proof.
  unfold displacement. rewrite centre_falloff by (left; reflexivity).
  destruct d; vm_compute; reflexivity.
Qed.

Lemma drift_modifyVertex (d : BrushDirection) (h : spec_float) :
  modifyVertex (JS := JS64) (driftBrush d) driftPoint
    (Vector3.make (S754_zero false) h (S754_zero false))
  = Vector3.make (S754_zero false)
      (fround64
         (SFadd prec64 emax64 h
            (match d with
             | up => decimal64 9 10
             | down => SFopp (decimal64 9 10)
             end)))
      (S754_zero false).
Proof.
  rewrite modifyVertex_eq.
  change (distSq (JS := JS64) driftPoint
            (Vector3.make (S754_zero false) h (S754_zero false)))
    with (S754_zero false).
  change (ltb (JSNumber := JS64) (S754_zero false)
            (brushSizeSq (JS := JS64) (driftBrush d))) with true.
  cbn [Vector3.x Vector3.y Vector3.z]. now rewrite drift_displacement.
Qed.

(** At the centre of the brush a vertex of height [0.5] is raised to
    [1.399999976158142] and from there lowered to [0.4999999701976776]. *)
Lemma drift_vertex_raised :
  modifyVertex (JS := JS64) (driftBrush up) driftPoint
    (Vector3.make (S754_zero false) (decimal64 1 2) (S754_zero false))
  = Vector3.make (S754_zero false) driftRaised (S754_zero false).
Proof. rewrite drift_modifyVertex. vm_compute. reflexivity. Qed.

Lemma drift_vertex_lowered :
  modifyVertex (JS := JS64) (driftBrush down) driftPoint
    (Vector3.make (S754_zero false) driftRaised (S754_zero false))
  = Vector3.make (S754_zero false) driftLowered (S754_zero false).
Proof. rewrite drift_modifyVertex. vm_compute. reflexivity. Qed.


Lemma drift_terrain_strokes
    (cvn : BufferAttribute spec_float -> list (Vector3.t spec_float)) :
  let mesh := Some (geometry (JS := JS64) cvn driftNoise) in
  let event := mkEvent (Some driftPoint) in
  getY (positions_of mesh) (64 * 129 + 64) = Some (decimal64 1 2) /\
  getY (positions_of
          (modifyTerrain (JS := JS64) cvn (driftBrush down)
             (modifyTerrain (JS := JS64) cvn (driftBrush up) mesh event) event))
       (64 * 129 + 64)
  = Some driftLowered.
Proof.
  intros mesh event. unfold getY. split.
  - subst mesh. now rewrite drift_terrain_centre.
  - rewrite !positions_of_modifyTerrain. cbn [point event].
    rewrite !modifyTerrain_loop_fmap, !list_lookup_fmap.
    subst mesh. rewrite drift_terrain_centre. cbn [fmap option_fmap option_map].
    now rewrite drift_vertex_raised, drift_vertex_lowered.
Qed.

(** *** A write that overflows *)

(** The brush of strength [1e39] sends the vertex at its centre to
    [+Infinity] and reaches no other vertex of the grid. *)
Lemma huge_vertex_centre :
  modifyVertex (JS := JS64) hugeBrush driftPoint
    (generateVertex (JS := JS64) driftNoise (referenceVertex 64 64))
  = Vector3.make (S754_zero false) (S754_infinity false) (S754_zero false).
Proof.
  rewrite drift_generateVertex, modifyVertex_eq.
  assert (Hd : distSq (JS := JS64) driftPoint
                 (Vector3.make (Vector3.x (referenceVertex 64 64)) (decimal64 1 2)
                               (Vector3.z (referenceVertex 64 64)))
               = S754_zero false) by (vm_compute; reflexivity).
  rewrite Hd.
  assert (Hin : ltb (JSNumber := JS64) (S754_zero false)
                  (brushSizeSq (JS := JS64) hugeBrush) = true)
    by (vm_compute; reflexivity).
  rewrite Hin. unfold displacement.
  rewrite centre_falloff by (right; reflexivity).
  vm_compute. reflexivity.
Qed.

Lemma huge_vertex_next_row :
  modifyVertex (JS := JS64) hugeBrush driftPoint
    (generateVertex (JS := JS64) driftNoise (referenceVertex 64 65))
  = Vector3.make (S754_zero false) (decimal64 1 2) (decimal64 25 32).
Proof.
  rewrite drift_generateVertex, modifyVertex_eq.
  assert (Hout : ltb (JSNumber := JS64)
                   (distSq (JS := JS64) driftPoint
                      (Vector3.make (Vector3.x (referenceVertex 64 65))
                         (decimal64 1 2) (Vector3.z (referenceVertex 64 65))))
                   (brushSizeSq (JS := JS64) hugeBrush) = false)
    by (vm_compute; reflexivity).
  rewrite Hout. vm_compute. reflexivity.
Qed.

Lemma huge_vertex_next_column :
  modifyVertex (JS := JS64) hugeBrush driftPoint
    (generateVertex (JS := JS64) driftNoise (referenceVertex 65 64))
  = Vector3.make (decimal64 25 32) (decimal64 1 2) (S754_zero false).
Proof.
  rewrite drift_generateVertex, modifyVertex_eq.
  assert (Hout : ltb (JSNumber := JS64)
                   (distSq (JS := JS64) driftPoint
                      (Vector3.make (Vector3.x (referenceVertex 65 64))
                         (decimal64 1 2) (Vector3.z (referenceVertex 65 64))))
                   (brushSizeSq (JS := JS64) hugeBrush) = false)
    by (vm_compute; reflexivity).
  rewrite Hout. vm_compute. reflexivity.
Qed.

Lemma huge_stroke_lookup
    (cvn : BufferAttribute spec_float -> list (Vector3.t spec_float))
    (ix iy : nat) :
  ix <= 128 -> iy <= 128 ->
  positions_of
    (modifyTerrain (JS := JS64) cvn hugeBrush
       (Some (geometry (JS := JS64) cvn driftNoise)) (mkEvent (Some driftPoint)))
    !! (iy * 129 + ix)
  = Some (modifyVertex (JS := JS64) hugeBrush driftPoint
            (generateVertex (JS := JS64) driftNoise (referenceVertex ix iy))).
Proof.
  intros Hix Hiy. rewrite positions_of_modifyTerrain. cbn [point].
  rewrite modifyTerrain_loop_fmap, list_lookup_fmap.
  now rewrite drift_terrain_lookup by assumption.
Qed.

(** After that stroke the vertex at the centre has the height [+Infinity]
    and a normal whose [x] is not finite. *)
Lemma huge_stroke_normal :
  let cvn := computeVertexNormals (JS := JS64) TERRAIN_SEGMENTS in
  let mesh := Some (geometry (JS := JS64) cvn driftNoise) in
  exists geom n,
    modifyTerrain (JS := JS64) cvn hugeBrush mesh (mkEvent (Some driftPoint))
    = Some geom /\
    getY (positions_of (Some geom)) (64 * 129 + 64) = Some (S754_infinity false) /\
    normal geom !! (64 * 129 + 64) = Some n /\
    isFinite (Vector3.x n) = false.
Proof.
  intros cvn mesh.
  destruct (modifyTerrain_normals (JS := JS64) cvn hugeBrush
              (geometry (JS := JS64) cvn driftNoise)
              (positions_of mesh) driftPoint eq_refl)
    as (geom & Hgeom & Hnormal).
  fold mesh in Hgeom.
  pose proof (huge_stroke_lookup cvn) as Hlookup. fold mesh in Hlookup.
  rewrite Hgeom in Hlookup.
  assert (Hlen : length (positions_of (Some geom)) = 129 * 129).
  { rewrite <- Hgeom, positions_of_modifyTerrain. cbn [point].
    rewrite modifyTerrain_loop_fmap, length_fmap. subst mesh. unfold geometry.
    rewrite positions_of_generate, length_fmap. apply length_PlaneGeometry. }
  set (positions := positions_of (Some geom)) in *.
  exists geom, (vertexNormal (JS := JS64) TERRAIN_SEGMENTS positions (64 * 129 + 64)).
  split; [exact Hgeom|]. split; [|split].
  - unfold getY. rewrite Hlookup by lia. now rewrite huge_vertex_centre.
  - rewrite Hnormal. unfold cvn, computeVertexNormals.
    rewrite list_lookup_fmap, lookup_seq_lt by (fold positions; lia).
    reflexivity.
  - unfold vertexNormal. cbv zeta.
    apply normalize_nonfinite, sum_faceNormals_nonfinite. right.
    exists (Vector3_cross (JS := JS64)
              (Vector3_sub (JS := JS64)
                 (Vector3.make (decimal64 25 32) (decimal64 1 2) (S754_zero false))
                 (Vector3.make (S754_zero false) (decimal64 1 2) (decimal64 25 32)))
              (Vector3_sub (JS := JS64)
                 (Vector3.make (S754_zero false) (S754_infinity false)
                               (S754_zero false))
                 (Vector3.make (S754_zero false) (decimal64 1 2) (decimal64 25 32)))).
    split; [|vm_compute; reflexivity].
    apply list_elem_of_omap.
    exists (64 * 129 + 64, 65 * 129 + 64, 64 * 129 + 65). split.
    + apply list_elem_of_filter. split; [left; reflexivity|].
      unfold faces, TERRAIN_SEGMENTS.
      apply list_elem_of_bind. exists 64. split; [|apply elem_of_seq; lia].
      apply list_elem_of_bind. exists 64. split; [|apply elem_of_seq; lia].
      left.
    + unfold faceNormal. cbn [fst snd].
      rewrite !Hlookup by lia.
      rewrite huge_vertex_centre, huge_vertex_next_row, huge_vertex_next_column.
      reflexivity.
Qed.

End CosineAtZero.

End Binary64Facts.

(** C2 (as stated) fails in the arithmetic of the code: the brush of
    positive size [2^-600] and strength [0.5], centred on the vertex at the
    origin of the terrain of height [0.5], has that vertex at distance [0],
    less than its size, and changes no vertex: [size * size] underflows to
    [0]. *)
Lemma tiny_brush_changes_nothing :
  SFltb (S754_zero false) (size tinyBrush) = true /\
  (forall (cos64 : spec_float -> spec_float)
          (cvn : BufferAttribute spec_float -> list (Vector3.t spec_float)),
     let mesh := Some (geometry (JS := Binary64 cos64) cvn driftNoise) in
     (exists v,
        positions_of mesh !! (64 * 129 + 64) = Some v /\
        SFltb (Math_sqrt (JSNumber := Binary64 cos64)
                 (distSq (JS := Binary64 cos64) driftPoint v))
              (size tinyBrush) = true) /\
     positions_of (modifyTerrain (JS := Binary64 cos64) cvn tinyBrush mesh
                     (mkEvent (Some driftPoint)))
     = positions_of mesh).
Proof.
  split; [reflexivity|]. intros cos64 cvn mesh. split.
  - eexists. split; [apply drift_terrain_centre|]. vm_compute. reflexivity.
  - apply underflowing_size_is_noop. vm_compute. reflexivity.
Qed.


(** C4 (as stated) fails in the arithmetic of the code for every [Math.cos]
    with [cos(+0) = 1]: on the terrain of height [0.5], raising the centre
    vertex by [0.9] and lowering it by [0.9] leaves it at
    [0.4999999701976776]. *)
Lemma raise_then_lower_drifts_in_binary64 :
  (forall (cos64 : spec_float -> spec_float)
          (cvn : BufferAttribute spec_float -> list (Vector3.t spec_float)),
     cos64 (S754_zero false) = S754_finite false 4503599627370496 (-52) ->
     let mesh := Some (geometry (JS := Binary64 cos64) cvn driftNoise) in
     let event := mkEvent (Some driftPoint) in
     getY (positions_of mesh) (64 * 129 + 64) = Some (decimal64 1 2) /\
     getY (positions_of
             (modifyTerrain (JS := Binary64 cos64) cvn (driftBrush down)
                (modifyTerrain (JS := Binary64 cos64) cvn (driftBrush up)
                   mesh event) event))
          (64 * 129 + 64)
     = Some driftLowered) /\
  driftLowered <> decimal64 1 2.
Proof.
  split.
  - intros cos64 cvn Hcos. exact (drift_terrain_strokes cos64 Hcos cvn).
  - intros Heq. vm_compute in Heq. discriminate Heq.
Qed.

(** C6 (as stated) fails in the arithmetic of the code for every
    [Math.cos] with [cos(+0) = 1]: on the terrain of height [0.5] one
    application of the brush of size [0.5] and of the positive, finite
    strength [1e39] leaves the vertex at its centre at the height
    [+Infinity], the write having overflowed, and with a normal whose [x]
    is not a finite number. *)
Lemma overflowing_stroke_leaves_nonfinite_normal :
  SFltb (S754_zero false) (strength hugeBrush) = true /\
  isFinite (strength hugeBrush) = true /\
  (forall cos64 : spec_float -> spec_float,
     cos64 (S754_zero false) = S754_finite false 4503599627370496 (-52) ->
     let cvn := computeVertexNormals (JS := Binary64 cos64) TERRAIN_SEGMENTS in
     let mesh := Some (geometry (JS := Binary64 cos64) cvn driftNoise) in
     exists geom n,
       modifyTerrain (JS := Binary64 cos64) cvn hugeBrush mesh
         (mkEvent (Some driftPoint))
       = Some geom /\
       getY (positions_of (Some geom)) (64 * 129 + 64)
       = Some (S754_infinity false) /\
       normal geom !! (64 * 129 + 64) = Some n /\
       isFinite (Vector3.x n) = false).
Proof.
  split; [reflexivity|]. split; [reflexivity|].
  intros cos64 Hcos. exact (huge_stroke_normal cos64 Hcos).
Qed.

(** ** The zoom buttons *)

Section ZoomFacts.
Local Open Scope R_scope.

Variable update : OrbitControls R -> OrbitControls R.

Lemma zoomFactor_pos (direction : ZoomDirection) : 0 < zoomFactor direction.
Proof. destruct direction; simpl; lra. Qed.

Lemma distanceTo_nonneg (a b : Vector3.t R) : 0 <= distanceTo a b.
Proof. apply sqrt_pos. Qed.

(** The proposed position lies on the ray from the target through the
    camera, at the current distance times the factor. *)
Lemma distanceTo_zoomPosition (direction : ZoomDirection)
    (controls : OrbitControls R) :
  distanceTo (zoomPosition direction controls) (target controls)
  = zoomFactor direction
    * distanceTo (object_position controls) (target controls).
Proof.
  pose proof (zoomFactor_pos direction) as Hf.
  unfold distanceTo, zoomPosition, addVectors, multiplyScalar, subVectors.
  cbn [Vector3.x Vector3.y Vector3.z].
  set (f := zoomFactor direction) in *.
  destruct (object_position controls) as [px py pz].
  destruct (target controls) as [tx ty tz].
  cbn [Vector3.x Vector3.y Vector3.z].
  set (S := (px - tx) * (px - tx) + (py - ty) * (py - ty) + (pz - tz) * (pz - tz)).
  assert (HS : 0 <= S).
  { unfold S. pose proof (Rle_0_sqr (px - tx)). pose proof (Rle_0_sqr (py - ty)).
    pose proof (Rle_0_sqr (pz - tz)). unfold Rsqr in *. lra. }
  replace ((tx + (px - tx) * f - tx) * (tx + (px - tx) * f - tx)
           + (ty + (py - ty) * f - ty) * (ty + (py - ty) * f - ty)
           + (tz + (pz - tz) * f - tz) * (tz + (pz - tz) * f - tz))
    with ((f * f) * S) by (unfold S; ring).
  rewrite sqrt_mult by nra. rewrite sqrt_square by lra. reflexivity.
Qed.

(** X13. The zoom guard in terms of the camera's current distance [d] from
    the target: the handler proposes the point at distance [factor * d] on
    the same ray ([0.8 d] to zoom in, [1.2 d] to zoom out); it moves the
    camera there and calls [update] when that distance lies within
    [[minDistance, maxDistance]], and otherwise leaves the controls
    untouched. *)
Theorem zoom_guard (direction : ZoomDirection) (controls : OrbitControls R) :
  let d := distanceTo (object_position controls) (target controls) in
  distanceTo (zoomPosition direction controls) (target controls)
  = zoomFactor direction * d /\
  subVectors (zoomPosition direction controls) (target controls)
  = multiplyScalar (subVectors (object_position controls) (target controls))
                   (zoomFactor direction) /\
  (minDistance controls <= zoomFactor direction * d <= maxDistance controls ->
   handleZoom update direction (Some controls)
   = Some (update (setPosition (zoomPosition direction controls) controls))) /\
  (~ (minDistance controls <= zoomFactor direction * d <= maxDistance controls) ->
   handleZoom update direction (Some controls) = Some controls).
Proof.
  intros d. pose proof (distanceTo_zoomPosition direction controls) as Hd.
  fold d in Hd. split; [exact Hd|]. split; [|split].
  - unfold zoomPosition, addVectors, multiplyScalar, subVectors.
    cbn [Vector3.x Vector3.y Vector3.z]. f_equal; ring.
  - intros [Hmin Hmax]. unfold handleZoom. cbv zeta. rewrite Hd.
    destruct (Rle_dec _ _); [|contradiction].
    destruct (Rle_dec _ _); [reflexivity|contradiction].
  - intros Hout. unfold handleZoom. cbv zeta. rewrite Hd.
    destruct (Rle_dec _ _); [|reflexivity].
    destruct (Rle_dec _ _); [|reflexivity].
    exfalso. apply Hout. split; assumption.
Qed.

Hypothesis update_keeps : keepsCamera update.

Lemma handleZoom_cases (direction : ZoomDirection) (controls : OrbitControls R) :
  exists controls',
    handleZoom update direction (Some controls) = Some controls' /\
    target controls' = target controls /\
    minDistance controls' = minDistance controls /\
    maxDistance controls' = maxDistance controls /\
    (object_position controls' = object_position controls \/
     (object_position controls' = zoomPosition direction controls /\
      minDistance controls
      <= distanceTo (zoomPosition direction controls) (target controls)
      <= maxDistance controls)).
Proof.
  unfold handleZoom. cbv zeta.
  destruct (Rle_dec _ _) as [Hmin|];
    [destruct (Rle_dec _ _) as [Hmax|]|];
    try (exists controls; repeat split; auto; fail).
  exists (update (setPosition (zoomPosition direction controls) controls)).
  destruct (update_keeps (setPosition (zoomPosition direction controls) controls))
    as (Hp & Ht & Hlo & Hhi).
  cbn [setPosition object_position target minDistance maxDistance] in *.
  repeat split; auto.
Qed.

(** X14. The zoom buttons respect the distance limits: if the camera starts
    within [[minDistance, maxDistance]] of the target, it is still within
    them after any sequence of zoom clicks, and the target and the limits
    are what they were (for an [update] that leaves the camera where the
    handler put it). *)
Theorem zoom_keeps_limits (clicks : list ZoomDirection)
    (controls : OrbitControls R) :
  minDistance controls
  <= distanceTo (object_position controls) (target controls)
  <= maxDistance controls ->
  exists controls',
    foldl (fun current direction => handleZoom update direction current)
          (Some controls) clicks
    = Some controls' /\
    target controls' = target controls /\
    minDistance controls' = minDistance controls /\
    maxDistance controls' = maxDistance controls /\
    minDistance controls
    <= distanceTo (object_position controls') (target controls)
    <= maxDistance controls.
Proof.
  revert controls. induction clicks as [|direction clicks IH]; intros controls Hin.
  - exists controls. repeat split; auto; apply Hin.
  - cbn [foldl].
    destruct (handleZoom_cases direction controls)
      as (c1 & -> & Ht & Hlo & Hhi & Hpos).
    assert (Hin1 : minDistance c1
                   <= distanceTo (object_position c1) (target c1)
                   <= maxDistance c1).
    { rewrite Ht, Hlo, Hhi. destruct Hpos as [->|[-> Hrange]]; assumption. }
    destruct (IH c1 Hin1) as (c2 & Hrun & Ht2 & Hlo2 & Hhi2 & Hin2).
    exists c2. rewrite Hrun, Ht2, Hlo2, Hhi2.
    rewrite Ht, Hlo, Hhi in *. repeat split; auto; apply Hin2.
Qed.

(** X15. Zooming in and then out does not come back: when both clicks pass
    the guard, the camera ends on the same ray at [0.96] times its distance
    from the target. *)
Theorem zoom_in_then_out_is_closer (controls : OrbitControls R) :
  let d := distanceTo (object_position controls) (target controls) in
  minDistance controls <= 8 / 10 * d <= maxDistance controls ->
  minDistance controls <= 96 / 100 * d <= maxDistance controls ->
  exists controls',
    handleZoom update zoom_out (handleZoom update zoom_in (Some controls))
    = Some controls' /\
    subVectors (object_position controls') (target controls)
    = multiplyScalar (subVectors (object_position controls) (target controls))
                     (96 / 100) /\
    distanceTo (object_position controls') (target controls) = 96 / 100 * d.
Proof.
  intros d Hin Hout.
  pose proof (distanceTo_zoomPosition zoom_in controls) as Hd1.
  fold d in Hd1. cbn [zoomFactor] in Hd1.
  set (c0 := setPosition (zoomPosition zoom_in controls) controls).
  destruct (update_keeps c0) as (Hp1 & Ht1 & Hlo1 & Hhi1).
  cbn [c0 setPosition object_position target minDistance maxDistance] in *.
  assert (H1 : handleZoom update zoom_in (Some controls) = Some (update c0)).
  { unfold handleZoom. cbv zeta. rewrite Hd1.
    destruct (Rle_dec _ _); [|lra]. destruct (Rle_dec _ _); [reflexivity|lra]. }
  rewrite H1.
  pose proof (distanceTo_zoomPosition zoom_out (update c0)) as Hd2.
  rewrite Hp1, Ht1 in Hd2. cbn [zoomFactor] in Hd2. rewrite Hd1 in Hd2.
  set (c1 := setPosition (zoomPosition zoom_out (update c0)) (update c0)).
  destruct (update_keeps c1) as (Hp2 & Ht2 & Hlo2 & Hhi2).
  cbn [c1 setPosition object_position target minDistance maxDistance] in *.
  exists (update c1). split; [|split].
  - unfold handleZoom. cbv zeta. rewrite Ht1, Hlo1, Hhi1, Hd2.
    destruct (Rle_dec _ _); [|lra]. destruct (Rle_dec _ _); [reflexivity|lra].
  - rewrite Hp2. unfold zoomPosition. rewrite Hp1, Ht1.
    unfold zoomPosition, addVectors, multiplyScalar, subVectors.
    cbn [Vector3.x Vector3.y Vector3.z zoomFactor]. f_equal; field.
  - rewrite Hp2, Hd2. lra.
Qed.

End ZoomFacts.

(** ** Instances of the theorems at concrete inputs *)

Lemma scenario_heights_witness :
  modifyTerrain_loop scenarioBrush origin coarseGrid !! (20 * 41 + 22)
  = Some (Vector3.make 5%R 0%R 0%R) /\
  modifyTerrain_loop scenarioBrush origin coarseGrid !! (20 * 41 + 21)
  = Some (Vector3.make (5 / 2)%R (1 / 4)%R 0%R).
Proof.
  destruct scenario_heights as (_ & _ & Hedge & Hhalf).
  split.
  - apply Hedge. unfold coarseGrid.
    rewrite PlaneGeometry_lookup by lia. unfold gridVertex. simpl.
    change (Z.of_nat 22) with 22%Z. change (Z.of_nat 20) with 20%Z.
    change (Z.of_nat 40) with 40%Z. f_equal. f_equal; lra.
  - replace (1 / 4)%R with (0 + 1 / 4)%R by lra.
    apply Hhalf. unfold coarseGrid.
    rewrite PlaneGeometry_lookup by lia. unfold gridVertex. simpl.
    change (Z.of_nat 21) with 21%Z. change (Z.of_nat 20) with 20%Z.
    change (Z.of_nat 40) with 40%Z. f_equal. f_equal; lra.
Defined.

Lemma footprint_boundary_witness :
  modifyTerrain_loop scenarioBrush origin flatGrid !! 0
  = Some (Vector3.make (-50)%R 0%R (-50)%R) /\
  exists i v v',
    flatGrid !! i = Some v /\ (dist origin v < 5)%R /\
    modifyTerrain_loop scenarioBrush origin flatGrid !! i = Some v' /\
    Vector3.y v' <> Vector3.y v.
Proof.
  destruct footprint_boundary as [_ Hexact].
  destruct (Hexact scenarioBrush origin flatGrid) as [Hout Hin].
  split.
  - apply Hout.
    + change (flatGrid !! 0) with (flatGrid !! (0 * 129 + 0)).
      rewrite (flatGrid_vertex 0 0) by lia. f_equal. f_equal; simpl; lra.
    + rewrite distSq_origin. simpl. lra.
  - apply Hin.
    + simpl. lra.
    + exists (64 * 129 + 64), origin. split; [exact flatGrid_centre|].
      unfold dist, origin. rewrite distSq_origin.
      replace (0 * 0 + 0 * 0)%R with 0%R by ring. rewrite sqrt_0. simpl. lra.
Defined.


Lemma normals_unit_length_witness :
  exists positions,
    strokes (computeVertexNormals 128)
      (Some (generate (computeVertexNormals 128) 100%R 128 (fun u _ => sin u)))
      [(scenarioBrush, mkEvent (Some origin))]
    = Some (mkGeometry (Some positions) (computeVertexNormals 128 positions)) /\
    length (computeVertexNormals 128 positions) = length positions /\
    Forall (fun n => Vector3_length n = 1%R) (computeVertexNormals 128 positions).
Proof.
  apply (normals_unit_length 100%R 128 (fun u _ => sin u)
           [(scenarioBrush, mkEvent (Some origin))]).
  - lra.
  - lia.
Defined.

Lemma nonfinite_point_is_noop_witness :
  positions_of
    (modifyTerrain (JS := Binary64 (fun a => a)) (fun _ => []) (driftBrush up)
       (Some (geometry (JS := Binary64 (fun a => a)) (fun _ => []) driftNoise))
       (mkEvent (Some (Vector3.make S754_nan (S754_zero false) (S754_zero false)))))
  = positions_of
      (Some (geometry (JS := Binary64 (fun a => a)) (fun _ => []) driftNoise)).
Proof.
  exact (proj1 (nonfinite_point_is_noop (fun a => a) (fun _ => []) (driftBrush up)
                  (Vector3.make S754_nan (S754_zero false) (S754_zero false))
                  _ (or_introl eq_refl))).
Defined.

Lemma direction_is_one_way_witness :
  Forall2 (fun v0 v1 => (Vector3.y v0 <= Vector3.y v1)%R)
          (positions_of pointMesh)
          (positions_of (modifyTerrain (fun _ => []) (mkBrush 5%R (1 / 2)%R up)
                           pointMesh pointEvent)) /\
  Forall2 (fun v0 v1 => (Vector3.y v1 <= Vector3.y v0)%R)
          (positions_of pointMesh)
          (positions_of (modifyTerrain (fun _ => []) (mkBrush 5%R (1 / 2)%R down)
                           pointMesh pointEvent)).
Proof.
  apply (direction_is_one_way (fun _ => []) 5%R (1 / 2)%R pointMesh pointEvent).
  lra.
Defined.

Lemma degenerate_brush_is_noop_witness :
  positions_of (modifyTerrain (fun _ => []) (mkBrush 0%R (1 / 2)%R up)
                  pointMesh pointEvent)
  = positions_of pointMesh.
Proof.
  apply (degenerate_brush_is_noop (fun _ => []) (mkBrush 0%R (1 / 2)%R up)
           pointMesh pointEvent).
  left. reflexivity.
Defined.

Lemma off_terrain_brush_is_identity_witness :
  modifyTerrain (fun _ => []) scenarioBrush
    (strokes (fun _ => []) (Some (geometry (fun _ => []) (fun _ _ => 0%R))) [])
    (mkEvent (Some (Vector3.make 60%R 0%R 0%R)))
  = strokes (fun _ => []) (Some (geometry (fun _ => []) (fun _ _ => 0%R))) [].
Proof.
  assert (Hsize : (0 <= size scenarioBrush)%R) by (simpl; lra).
  assert (Hfar : (50 + size scenarioBrush
                  <= Rabs (Vector3.x (Vector3.make 60 0 0)))%R
                 \/ (50 + size scenarioBrush
                     <= Rabs (Vector3.z (Vector3.make 60 0 0)))%R).
  { left. simpl. rewrite Rabs_pos_eq; lra. }
  exact (off_terrain_brush_is_identity (fun _ => []) (fun _ _ => 0%R) []
           scenarioBrush (Vector3.make 60%R 0%R 0%R) Hsize Hfar).
Defined.

Lemma generated_heights_bounded_witness :
  Forall (fun h => (-5 <= h <= 5)%R)
         (heights (positions_of
                     (Some (generate (num := R) (fun _ => []) 4%R 4
                              (fun u _ => sin u))))).
Proof.
  apply (generated_heights_bounded (fun _ => []) 4%R 4 (fun u _ => sin u)).
  intros u _. apply SIN_bound.
Defined.

Lemma nan_strength_poisons_witness :
  modifyTerrain_loop (JS := Binary64 (fun a => a))
    (mkBrush (binary_normalize prec64 emax64 5 0 false) S754_nan up) driftPoint
    [Vector3.make (S754_zero false) (decimal64 1 2) (S754_zero false)] !! 0
  = Some (Vector3.make (S754_zero false) S754_nan (S754_zero false)).
Proof.
  apply (nan_strength_poisons (fun a => a)
           (binary_normalize prec64 emax64 5 0 false) up driftPoint
           [Vector3.make (S754_zero false) (decimal64 1 2) (S754_zero false)] 0
           (Vector3.make (S754_zero false) (decimal64 1 2) (S754_zero false))).
  - reflexivity.
  - vm_compute. reflexivity.
Defined.

Lemma appControls_distance :
  (43 <= distanceTo (object_position appControls) (target appControls) <= 44)%R.
Proof.
  unfold distanceTo, appControls. cbn [object_position target Vector3.x
    Vector3.y Vector3.z].
  replace ((25 - 0) * (25 - 0) + (25 - 0) * (25 - 0) + (25 - 0) * (25 - 0))%R
    with 1875%R by lra.
  split.
  - apply Rle_trans with (sqrt (43 * 43)); [rewrite sqrt_square; lra|].
    apply sqrt_le_1_alt. lra.
  - apply Rle_trans with (sqrt (44 * 44)); [|rewrite sqrt_square; lra].
    apply sqrt_le_1_alt. lra.
Qed.

Lemma id_keepsCamera : keepsCamera (fun controls => controls).
Proof. intros controls. repeat split. Qed.

Lemma zoom_keeps_limits_witness :
  exists controls',
    foldl (fun current direction =>
             handleZoom (fun controls => controls) direction current)
          (Some appControls) [zoom_in; zoom_out]
    = Some controls' /\
    target controls' = target appControls /\
    minDistance controls' = minDistance appControls /\
    maxDistance controls' = maxDistance appControls /\
    (minDistance appControls
     <= distanceTo (object_position controls') (target appControls)
     <= maxDistance appControls)%R.
Proof.
  apply (zoom_keeps_limits (fun controls => controls) id_keepsCamera
           [zoom_in; zoom_out] appControls).
  pose proof appControls_distance. cbn [minDistance maxDistance appControls] in *.
  lra.
Defined.

Lemma zoom_in_then_out_is_closer_witness :
  exists controls',
    handleZoom (fun controls => controls) zoom_out
      (handleZoom (fun controls => controls) zoom_in (Some appControls))
    = Some controls' /\
    subVectors (object_position controls') (target appControls)
    = multiplyScalar (subVectors (object_position appControls) (target appControls))
                     (96 / 100)%R /\
    distanceTo (object_position controls') (target appControls)
    = (96 / 100 * distanceTo (object_position appControls) (target appControls))%R.
Proof.
  pose proof appControls_distance as Hd.
  apply (zoom_in_then_out_is_closer (fun controls => controls) id_keepsCamera
           appControls);
    cbn [minDistance maxDistance appControls] in *; lra.
Defined.
